(** * Trivia game fulfillment: answer resolution and session progression

    A shallow embedding of [functions/utils.js], [functions/ssml.js],
    [functions/themes.js] and of the fulfillment handler (the start of a
    round, question selection, answer shuffling, answer validation, the
    fallback handling of the session and the statistics of a user), with
    the properties of the design document and further properties of the
    code stated over it.

    Conventions of the embedding.
    - A JavaScript string is a [string] of the Standard Library; its
      characters stand for the code units 0..255 (Latin-1).  Case mapping
      and white space are written out for that range.
    - [Math.random()] is a value of [draw]: the rational
      [numer / (numer + gap + 1)], which ranges over all of [0, 1).  A run
      receives its random numbers as a function from the number of the call
      to the draw it returns.
    - A [while] loop whose end depends on the random numbers runs on fuel,
      one unit per evaluation of its condition. *)

From Stdlib Require Import List Arith Lia ZArith Bool Ascii String Permutation.
From Stdlib Require Import DecimalString.
Import ListNotations.
Local Open Scope string_scope.
Local Open Scope list_scope.
Local Open Scope nat_scope.

(** ** JavaScript primitives used by the sources *)

Module JS.

(** Values that reach the functions below.  A number is integer-valued
    (the answer positions and the counters of the session); its decimal
    numeral has no exponent. *)
Inductive value : Type :=
| undefined
| null
| bool (b : Datatypes.bool)
| num (z : Z)
| str (s : string).

(** ToBoolean. *)
Definition truthy (v : value) : Datatypes.bool :=
  match v with
  | undefined | null => false
  | bool b => b
  | num z => negb (z =? 0)%Z
  | str s => negb (s =? "")%string
  end.

(** [a && b] on values: the left operand when it is falsy. *)
Definition and (a b : value) : value := if truthy a then b else a.

(** WhiteSpace and LineTerminator code units below 256. *)
Definition isWhiteSpace (c : ascii) : Datatypes.bool :=
  let n := nat_of_ascii c in
  ((9 <=? n) && (n <=? 13)) || (n =? 32) || (n =? 160).

(** One code unit of [String.prototype.toLowerCase]. *)
Definition lowerChar (c : ascii) : ascii :=
  let n := nat_of_ascii c in
  if ((65 <=? n) && (n <=? 90)) ||
     ((192 <=? n) && (n <=? 222) && negb (n =? 215))
  then ascii_of_nat (n + 32)
  else c.

Fixpoint toLowerCase (s : string) : string :=
  match s with
  | EmptyString => EmptyString
  | String c s' => String (lowerChar c) (toLowerCase s')
  end.

(** [toLocaleLowerCase] in a locale without special casing rules. *)
Definition toLocaleLowerCase (s : string) : string := toLowerCase s.

Fixpoint trimStart (s : string) : string :=
  match s with
  | EmptyString => EmptyString
  | String c s' => if isWhiteSpace c then trimStart s' else s
  end.

Fixpoint trimEnd (s : string) : string :=
  match s with
  | EmptyString => EmptyString
  | String c s' =>
      match trimEnd s' with
      | EmptyString => if isWhiteSpace c then EmptyString else String c EmptyString
      | t => String c t
      end
  end.

Definition trim (s : string) : string := trimEnd (trimStart s).

(** [s.split(sep)] for a separator of one character. *)
Fixpoint split (sep : ascii) (s : string) : list string :=
  match s with
  | EmptyString => [EmptyString]
  | String c s' =>
      if Ascii.eqb c sep then EmptyString :: split sep s'
      else match split sep s' with
           | w :: ws => String c w :: ws
           | [] => [String c EmptyString]
           end
  end.

(** [array.join(sep)] on an array of strings. *)
Definition join (sep : string) (l : list string) : string := String.concat sep l.

(** [s.indexOf(c) !== -1] for a character [c]. *)
Fixpoint includesChar (c : ascii) (s : string) : Datatypes.bool :=
  match s with
  | EmptyString => false
  | String d s' => Ascii.eqb d c || includesChar c s'
  end.

(** [s.replace(/[set]/g, '')]: every character of [set] is removed. *)
Fixpoint removeChars (set : string) (s : string) : string :=
  match s with
  | EmptyString => EmptyString
  | String c s' =>
      if includesChar c set then removeChars set s'
      else String c (removeChars set s')
  end.

(** [array.indexOf(x)], [-1] when absent; [eqb] is [===] on the elements. *)
Fixpoint indexOfBy {A : Type} (eqb : A -> A -> Datatypes.bool) (x : A) (l : list A) : Z :=
  match l with
  | [] => (-1)%Z
  | y :: l' =>
      if eqb y x then 0%Z
      else let r := indexOfBy eqb x l' in
           if (r =? -1)%Z then (-1)%Z else (r + 1)%Z
  end.

Definition indexOf (x : string) (l : list string) : Z := indexOfBy String.eqb x l.

(** [array[i]]: [None] is [undefined]. *)
Definition get {A : Type} (l : list A) (i : Z) : option A :=
  if (i <? 0)%Z then None else nth_error l (Z.to_nat i).

Fixpoint removeAt {A : Type} (n : nat) (l : list A) : list A :=
  match n, l with
  | _, [] => []
  | O, _ :: l' => l'
  | S n', x :: l' => x :: removeAt n' l'
  end.

(** [array.splice(start, 1)]: a negative [start] counts from the end. *)
Definition splice1 {A : Type} (start : Z) (l : list A) : list A :=
  let len := Z.of_nat (List.length l) in
  let from := if (start <? 0)%Z then Z.max (len + start) 0 else Z.min start len in
  removeAt (Z.to_nat from) l.

(** A result of [Math.random()]: the rational [numer / (numer + gap + 1)]. *)
Record draw : Type := { numer : nat; gap : nat }.

(** [Math.floor(r * k)] for an integer [k]. *)
Definition floorTimes (r : draw) (k : Z) : Z :=
  (Z.of_nat (numer r) * k / Z.of_nat (numer r + gap r + 1))%Z.

(** [n.toString()] for a natural number. *)
Definition toString (n : nat) : string := NilEmpty.string_of_uint (Nat.to_uint n).

(** *** parseInt *)

Definition digitValue (radix : Z) (c : ascii) : option Z :=
  let n := Z.of_nat (nat_of_ascii c) in
  let d := if ((48 <=? n) && (n <=? 57))%Z then Some (n - 48)%Z
           else if ((97 <=? n) && (n <=? 122))%Z then Some (n - 87)%Z
           else if ((65 <=? n) && (n <=? 90))%Z then Some (n - 55)%Z
           else None in
  match d with
  | Some v => if (v <? radix)%Z then Some v else None
  | None => None
  end.

(** The longest prefix of digits, read in [radix]; [None] when it is empty. *)
Fixpoint parseDigits (radix : Z) (s : string) (acc : option Z) : option Z :=
  match s with
  | EmptyString => acc
  | String c s' =>
      match digitValue radix c with
      | Some d =>
          parseDigits radix s'
            (Some (radix * match acc with Some a => a | None => 0 end + d)%Z)
      | None => acc
      end
  end.

(** [parseInt(s)] without a radix; [None] is NaN. *)
Definition parseIntString (s : string) : option Z :=
  let s0 := trimStart s in
  let '(sign, s1) :=
    match s0 with
    | String "-" r => ((-1)%Z, r)
    | String "+" r => (1%Z, r)
    | _ => (1%Z, s0)
    end in
  let '(radix, s2) :=
    match s1 with
    | String "0" (String "x" r) => (16%Z, r)
    | String "0" (String "X" r) => (16%Z, r)
    | _ => (10%Z, s1)
    end in
  match parseDigits radix s2 None with
  | Some n => Some (sign * n)%Z
  | None => None
  end.

(** [parseInt(v)]: the argument is converted to a string first. *)
Definition parseInt (v : value) : option Z :=
  match v with
  | undefined | null | bool _ => None
  | num z => Some z
  | str s => parseIntString s
  end.

Definition isNaN (n : option Z) : Datatypes.bool :=
  match n with Some _ => false | None => true end.

(** [a < b] and [a > b] on numbers: false when an operand is NaN. *)
Definition lt (a : option Z) (b : Z) : Datatypes.bool :=
  match a with Some x => (x <? b)%Z | None => false end.

Definition gt (a : option Z) (b : Z) : Datatypes.bool :=
  match a with Some x => (x >? b)%Z | None => false end.

(** [a === b] on values. *)
Definition strictEquals (a b : value) : Datatypes.bool :=
  match a, b with
  | undefined, undefined => true
  | null, null => true
  | bool x, bool y => Bool.eqb x y
  | num x, num y => (x =? y)%Z
  | str x, str y => (x =? y)%string
  | _, _ => false
  end.

(** The text of an element in [array.join(sep)] and in a template. *)
Definition show (v : value) : string :=
  match v with
  | undefined | null => ""
  | bool true => "true"
  | bool false => "false"
  | num z => NilEmpty.string_of_int (Z.to_int z)
  | str s => s
  end.

End JS.

(** ** functions/utils.js *)

Module Utils.

Definition YES : string := "yes".
Definition NO : string := "no".
Definition TRUE : string := "true".
Definition FALSE : string := "false".

Definition SEPARATOR : ascii := "|"%char.
Definition SPACE : ascii := " "%char.

(** [getRandomNumber(min, max)] on the draw that [Math.random()] returns. *)
Definition getRandomNumber (min max : Z) (r : JS.draw) : Z :=
  (JS.floorTimes r (max - min + 1) + min)%Z.

(** Modelled from the spec: the [levenshtein] package is a dependency that
    is not part of the sources; the design document calls its [distance]
    the edit distance of the two strings.  It is the least number of
    insertions, deletions and substitutions of one character, by the usual
    recurrence. *)
Fixpoint levenshtein (s t : string) {struct s} : nat :=
  match s with
  | EmptyString => String.length t
  | String a s' =>
      (fix inner (t : string) : nat :=
         match t with
         | EmptyString => String.length s
         | String b t' =>
             Nat.min (Nat.min (S (levenshtein s' t)) (S (inner t')))
                     (levenshtein s' t' + if Ascii.eqb a b then 0 else 1)
         end) t
  end.

(** The character class of [removePunctuationAndSpaces]. *)
Definition punctuation : string := ".,/#!$%^&*;:{}=-_`~()".

Definition removePunctuationAndSpaces (value : string) : string :=
  let value := JS.removeChars punctuation value in
  JS.removeChars " " value.

Definition fuzzyMatch (value1 value2 : string) : bool :=
  let value1 := removePunctuationAndSpaces (JS.toLowerCase value1) in
  let value2 := removePunctuationAndSpaces (JS.toLowerCase value2) in
  ((3 <? String.length value1) && (3 <? String.length value2)) &&
  (levenshtein value1 value2 <=? 1).

(** [compareStrings]: [None] is the TypeError of calling
    [toLocaleLowerCase] on a truthy value that is not a string. *)
Definition compareStrings (string1 string2 : JS.value) : option bool :=
  if JS.truthy (JS.and string1 string2) then
    match string1, string2 with
    | JS.str s1, JS.str s2 =>
        Some (JS.trim (JS.toLocaleLowerCase s1) =? JS.trim (JS.toLocaleLowerCase s2))%string
    | _, _ => None
    end
  else Some false.

(** [getSynonyms]: the alternatives of an answer, separated by [|];
    [None] is an [undefined] answer. *)
Definition getSynonyms (value : option string) : list string :=
  match value with
  | Some value =>
      if negb (value =? "")%string
      then map JS.trim (JS.split SEPARATOR value)
      else []
  | None => []
  end.

Definition isTrueFalse (answers : list string) : bool :=
  match answers with
  | [a1; a2] =>
      let answer1 := JS.toLowerCase a1 in
      let answer2 := JS.toLowerCase a2 in
      ((answer1 =? TRUE)%string && (answer2 =? FALSE)%string) ||
      ((answer2 =? TRUE)%string && (answer1 =? FALSE)%string)
  | _ => false
  end.



(** *** generateSynonyms *)

Definition isIgnorableWord (result : string) : bool :=
  existsb (String.eqb result)
    ["the"; "a"; "and"; "or"; "&"; "of"; "for"; "an"; "by"].

(** The backward loop that splices every ignorable word out of [results]:
    removing an entry does not move the entries still to be visited. *)
Definition dropIgnorable (results : list string) : list string :=
  filter (fun r => negb (isIgnorableWord (JS.trim (JS.toLowerCase r)))) results.

(** The object [synonyms]: an array used as a table from answer to its
    synonyms.  Entries are kept in the order of their first assignment. *)
Definition store : Type := list (string * list string).

Fixpoint lookup (key : string) (m : store) : option (list string) :=
  match m with
  | [] => None
  | (k, v) :: m' => if (k =? key)%string then Some v else lookup key m'
  end.

Fixpoint update (key : string) (v : list string) (m : store) : store :=
  match m with
  | [] => [(key, v)]
  | (k, w) :: m' =>
      if (k =? key)%string then (k, v) :: m' else (k, w) :: update key v m'
  end.

(** Two names are not entries of the table when assigned on an array:
    [length] (assigning an array to it throws a RangeError) and [__proto__]
    (the assignment replaces the prototype).  The embedding stops a run
    that assigns one of them. *)
Definition reservedKey (key : string) : bool :=
  (key =? "length")%string || (key =? "__proto__")%string.

Definition assign (key : string) (v : list string) (m : store) : option store :=
  if reservedKey key then None else Some (update key v m).

(** A canonical array index: a decimal numeral without leading zero whose
    value is below [2^32 - 1]. *)
Definition arrayIndex (key : string) : option Z :=
  match key with
  | EmptyString => None
  | String c rest =>
      let n := nat_of_ascii c in
      if (key =? "0")%string then Some 0%Z
      else if (49 <=? n) && (n <=? 57) then
        match JS.parseDigits 10 key None with
        | Some z =>
            if (String.length (JS.removeChars "0123456789" key) =? 0) &&
               (z <? 4294967295)%Z
            then Some z else None
        | None => None
        end
      else None
  end.

Fixpoint insertIndex (k : Z * string) (l : list (Z * string)) : list (Z * string) :=
  match l with
  | [] => [k]
  | h :: t => if (fst k <=? fst h)%Z then k :: l else h :: insertIndex k t
  end.

(** The keys visited by [for (const key in synonyms)]: array indices in
    ascending order, then the other names in the order of their creation. *)
Definition forInKeys (m : store) : list string :=
  let keys := map fst m in
  let indices :=
    fold_right
      (fun k acc => match arrayIndex k with
                    | Some z => insertIndex (z, k) acc
                    | None => acc
                    end) [] keys in
  map snd indices ++
  filter (fun k => match arrayIndex k with Some _ => false | None => true end) keys.

Definition wordsOf (value : string) : list string :=
  dropIgnorable (JS.split SPACE value).

(** A value without separator: the value, then its words. *)
Definition plainSynonyms (value : string) : list string :=
  let results := wordsOf value in
  if (JS.indexOf value results =? -1)%Z then value :: results else results.

(** A value with separators: the value, then the words of every
    alternative that are not yet in the list. *)
Definition separatedSynonyms (value : string) : list string :=
  fold_left
    (fun allValues split =>
       fold_left
         (fun allValues r =>
            if (JS.indexOf r allValues =? -1)%Z then allValues ++ [r] else allValues)
         (wordsOf (JS.trim split)) allValues)
    (JS.split SEPARATOR value) [value].

Definition findAllSynonyms (values : list string) : option store :=
  fold_left
    (fun synonyms v =>
       match synonyms with
       | None => None
       | Some synonyms =>
           let value := JS.trim v in
           if negb (JS.includesChar SEPARATOR value)
           then assign value (plainSynonyms value) synonyms
           else assign value (separatedSynonyms value) synonyms
       end)
    values (Some []).

(** One word [result] of the copy of the synonyms of [value], against the
    copy [otherSynonymsClone] of another entry; the pair is
    ([otherSynonyms], [valueSynonyms]) as they are mutated. *)
Definition removeShared (otherSynonymsClone : list string)
    (arrays : list string * list string) (result : string)
  : list string * list string :=
  let '(otherSynonyms, valueSynonyms) := arrays in
  let index := JS.indexOf result otherSynonymsClone in
  if negb (index =? -1)%Z then
    (JS.splice1 (JS.indexOf result otherSynonyms) otherSynonyms,
     if negb (JS.indexOf result valueSynonyms =? -1)%Z
     then JS.splice1 (JS.indexOf result valueSynonyms) valueSynonyms
     else valueSynonyms)
  else arrays.

(** The body of [for (const key in synonyms)] for the entry [value]. *)
Definition removeFromKey (value : string) (valueSynonymsClone : list string)
    (synonyms : store) (key : string) : store :=
  if negb (key =? value)%string then
    match lookup key synonyms, lookup value synonyms with
    | Some otherSynonyms, Some valueSynonyms =>
        let '(otherSynonyms', valueSynonyms') :=
          fold_left (removeShared otherSynonyms) valueSynonymsClone
                    (otherSynonyms, valueSynonyms) in
        update value valueSynonyms' (update key otherSynonyms' synonyms)
    | _, _ => synonyms
    end
  else synonyms.

(** The body of the loop over [values] that removes the duplicates. *)
Definition removeForValue (synonyms : store) (value : string) : store :=
  match lookup value synonyms with
  | Some valueSynonyms =>
      fold_left (removeFromKey value valueSynonyms) (forInKeys synonyms) synonyms
  | None => synonyms
  end.

Definition removeDuplicates (values : list string) (synonyms : store) : store :=
  fold_left removeForValue values synonyms.

(** The last loop: the values in their order, each with its synonyms. *)
Definition collectResults (values : list string) (synonyms : store) : list string :=
  map (fun v =>
         let key := JS.trim v in
         match lookup key synonyms with
         | Some synonym =>
             if negb (List.length synonym =? 0)
             then JS.join (String SEPARATOR EmptyString) synonym
             else key
         | None => key
         end) values.

(** [generateSynonyms(values, mainCallback)]: the list handed to
    [mainCallback]; [None] when the run does not get there. *)
Definition generateSynonyms (values : list string) : option (list string) :=
  match findAllSynonyms values with
  | Some synonyms => Some (collectResults values (removeDuplicates values synonyms))
  | None => None
  end.

(** [getRandomItem(array)] on the draw that [Math.random()] returns;
    [None] is [undefined]. *)
Definition getRandomItem {A : Type} (array : list A) (r : JS.draw) : option A :=
  JS.get array (JS.floorTimes r (Z.of_nat (List.length array))).

End Utils.

(** ** functions/ssml.js *)

Module Ssml.

(** [value.replace(/&/g, '&amp;')]. *)
Fixpoint replaceAmpersands (value : string) : string :=
  match value with
  | EmptyString => EmptyString
  | String c rest =>
      if Ascii.eqb c "&" then "&amp;" ++ replaceAmpersands rest
      else String c (replaceAmpersands rest)
  end.

Definition escape (value : JS.value) : JS.value :=
  match value with
  | JS.str s => if JS.truthy value then JS.str (replaceAmpersands s) else value
  | _ => value
  end.

(** The methods of the class, on the array [this.tags]. *)
Definition say (value : JS.value) (tags : list JS.value) : list JS.value :=
  if JS.truthy value then tags ++ [escape value] else tags.

Definition audio (url description : string) (tags : list JS.value) : list JS.value :=
  if negb (url =? "")%string then
    if negb (description =? "")%string then
      tags ++ [JS.str ("<audio src='" ++ url ++ "'><sub alias='" ++
                       JS.show (escape (JS.str description)) ++
                       " sound'>&#x1f50a;</sub></audio>")]
    else tags ++ [JS.str ("<audio src='" ++ url ++ "'/>")]
  else tags.

Definition pause (duration : string) (tags : list JS.value) : list JS.value :=
  if negb (duration =? "")%string
  then tags ++ [JS.str ("<break time='" ++ duration ++ "'/>")]
  else tags.

Definition toString (tags : list JS.value) : string :=
  "<speak>" ++ JS.join " " (map JS.show tags) ++ "</speak>".

End Ssml.

(** ** functions/themes.js *)

Module Themes.

Section Tables.

(** The prompts of the themes are read from JSON files that are data, not
    code: [prompts theme type] is [this.prompts[theme][type]], an array of
    strings, and [None] when the theme or the type has no entry. *)
Variable prompts : string -> string -> option (list string).

(** [random n] is the result of the call number [n] of [Math.random()]. *)
Variable random : nat -> JS.draw.

Definition getPrompts (theme type : string) : option (list string) :=
  if negb (theme =? "")%string && negb (type =? "")%string
  then prompts theme type
  else None.

(** An element of an array of strings as a value. *)
Definition item (o : option string) : JS.value :=
  match o with
  | Some s => JS.str s
  | None => JS.undefined
  end.

(** The loop [while (prompt === lastPrompt && counter < prompts.length)];
    [remaining] is [prompts.length - counter]. *)
Fixpoint redraw (remaining : nat) (prompts : list string)
    (lastPrompt prompt : JS.value) (calls : nat) : JS.value * nat :=
  match remaining with
  | O => (prompt, calls)
  | S remaining' =>
      if JS.strictEquals prompt lastPrompt then
        redraw remaining' prompts lastPrompt
          (item (Utils.getRandomItem prompts (random calls))) (S calls)
      else (prompt, calls)
  end.

(** [getRandomPrompt(theme, type, lastPrompt)]: the prompt and the number
    of draws used. *)
Definition getRandomPrompt (theme type : string) (lastPrompt : JS.value)
    (calls : nat) : JS.value * nat :=
  let missing := (JS.str ("Missing prompts: " ++ type), calls) in
  if negb (theme =? "")%string && negb (type =? "")%string then
    match getPrompts theme type with
    | Some prompts =>
        let prompt := item (Utils.getRandomItem prompts (random calls)) in
        if JS.truthy lastPrompt
        then redraw (List.length prompts - 1) prompts lastPrompt prompt (S calls)
        else (prompt, S calls)
    | None => missing
    end
  else missing.

End Tables.

End Themes.


(** ** The fulfillment handler *)

Module Trivia.

Definition MAX_PREVIOUS_QUESTIONS : nat := 100.
Definition QUESTIONS_PER_GAME : nat := 4.

(** The result of a loop that runs on fuel. *)
Inductive outcome (A : Type) : Type :=
| Done (a : A)
| OutOfFuel.
Arguments Done {A} a.
Arguments OutOfFuel {A}.

Definition optZ_eqb (a b : option Z) : bool :=
  match a, b with
  | Some x, Some y => (x =? y)%Z
  | None, None => true
  | _, _ => false
  end.

(** What [selectQuestions] returns and what it leaves behind: [selected] is
    the returned array ([None] is [null], an entry [None] is [undefined]),
    [newGameLength] the variable [gameLength], [newPreviousQuestions] the
    history stored for the user, [newCalls] the number of draws used. *)
Record selection : Type := {
  selected : option (list (option Z));
  newGameLength : nat;
  newPreviousQuestions : list (option Z);
  newCalls : nat
}.

(** *** isValidAnswer *)

Definition isValidAnswer {A : Type} (answer : JS.value) (answers : list A) : JS.value :=
  JS.and (JS.and (JS.and answer
    (JS.bool (negb (JS.isNaN (JS.parseInt answer)))))
    (JS.bool (JS.lt (JS.parseInt answer) (Z.of_nat (List.length answers) + 1))))
    (JS.bool (JS.gt (JS.parseInt answer) 0)).

Definition isTrueFalseQuestion (answers : option (list string)) : bool :=
  match answers with
  | Some [a0; a1] =>
      let synonyms1 := Utils.getSynonyms (Some a0) in
      let synonyms2 := Utils.getSynonyms (Some a1) in
      match synonyms1, synonyms2 with
      | s1 :: _, s2 :: _ =>
          if negb (s1 =? "")%string && negb (s2 =? "")%string
          then Utils.isTrueFalse [JS.toLowerCase s1; JS.toLowerCase s2]
          else false
      | _, _ => false
      end
  | _ => false
  end.

(** *** The session *)

(** The prompts that tell the answers of the handlers apart. *)
Inductive prompt : Type :=
| RAPID_REPROMPTS
| FALLBACK_PROMPT_1
| FALLBACK_PROMPT_2
| PLAY_AGAIN_QUESTION_PROMPTS
| QUESTION (question : string) (answers : list (option string))
| ANSWERS_PROBLEM.

(** What a handler does with the conversation: [app.ask] keeps it open,
    [app.tell] closes it; [Silent] is a return without an answer and
    [Throws] an exception that nothing catches. *)
Inductive response : Type :=
| Ask (p : prompt)
| Tell (p : prompt)
| Silent
| Throws.

(** The outcome of the read of the dictionary entry of the raw input. *)
Inductive lookup : Type := Hit | Miss | Failed.

(** What a request carries: the raw input, the arguments that the intent
    may have filled ([JS.null] when absent) and what the dictionary holds
    for the raw input. *)
Record request : Type := {
  rawInput : string;
  numberArgument : JS.value;
  anyArgument : JS.value;
  ordinalArgument : JS.value;
  dictionary : lookup
}.

(** The fields of [app.data] that the handlers below read and write, as
    [startNewRound] has set them. *)
Record data : Type := {
  sessionQuestions : list (option string);
  selectedAnswers : list (option string);
  correctAnswer : Z;
  sessionAnswers : list (option (list string));
  questionPrompt : option string;
  score : Z;
  currentQuestion : Z;
  gameLength : Z;
  fallbackCount : option Z;
  correct : option bool
}.

Definition setFallbackCount (c : option Z) (d : data) : data :=
  {| sessionQuestions := sessionQuestions d; selectedAnswers := selectedAnswers d;
     correctAnswer := correctAnswer d; sessionAnswers := sessionAnswers d;
     questionPrompt := questionPrompt d; score := score d;
     currentQuestion := currentQuestion d; gameLength := gameLength d;
     fallbackCount := c; correct := correct d |}.

Definition setCorrect (b : bool) (d : data) : data :=
  {| sessionQuestions := sessionQuestions d; selectedAnswers := selectedAnswers d;
     correctAnswer := correctAnswer d; sessionAnswers := sessionAnswers d;
     questionPrompt := questionPrompt d; score := score d;
     currentQuestion := currentQuestion d; gameLength := gameLength d;
     fallbackCount := fallbackCount d; correct := Some b |}.

Definition setScore (s : Z) (d : data) : data :=
  {| sessionQuestions := sessionQuestions d; selectedAnswers := selectedAnswers d;
     correctAnswer := correctAnswer d; sessionAnswers := sessionAnswers d;
     questionPrompt := questionPrompt d; score := s;
     currentQuestion := currentQuestion d; gameLength := gameLength d;
     fallbackCount := fallbackCount d; correct := correct d |}.

(** [askQuestion]: nothing is answered without a question. *)
Definition askQuestion (question : option string) (answers : list (option string))
  : response :=
  match question with
  | Some q => if negb (q =? "")%string then Ask (QUESTION q answers) else Silent
  | None => Silent
  end.

(** [compareStrings] on two strings. *)
Definition sameString (s1 s2 : string) : bool :=
  match Utils.compareStrings (JS.str s1) (JS.str s2) with
  | Some b => b
  | None => false
  end.

Fixpoint findIndex {A : Type} (p : A -> bool) (l : list A) (i : nat) : option nat :=
  match l with
  | [] => None
  | x :: l' => if p x then Some i else findIndex p l' (S i)
  end.

(** [if (!number) number = other]. *)
Definition orElse (number other : JS.value) : JS.value :=
  if negb (JS.truthy number) then other else number.

(** The node of the database that holds the game: an entry that is
    missing is [None]. *)
Record database : Type := {
  questions : option (list string);
  answers : option (list (list string));
  followUps : option (list string)
}.

(** How [startNewRound] ends: the session data and the follow-ups it has
    stored before [callback(null)], the message of the error handed to
    [callback], or a TypeError thrown on the way. *)
Inductive round : Type :=
| Started (d : data) (sessionFollowUps : list (option string))
| Error (message : string)
| TypeError.

(** [array[i]] for an index that may be [undefined]. *)
Definition at_ {A : Type} (array : list A) (i : option Z) : option A :=
  match i with
  | Some i => JS.get array i
  | None => None
  end.

(** The loop of [trueIntent], [falseIntent] and [listIntent]: the position,
    counted from 1, of the first answer whose first synonym is [choice],
    and 0 without one. *)
Definition labelled (choice : JS.value) (selectedAnswers : list (option string)) : Z :=
  match findIndex
          (fun answer =>
             match Utils.getSynonyms answer with
             | synonym :: _ =>
                 match Utils.compareStrings (JS.str synonym) choice with
                 | Some b => b
                 | None => false
                 end
             | [] => false
             end)
          selectedAnswers 0 with
  | Some i => (Z.of_nat i + 1)%Z
  | None => 0%Z
  end.

(** *** persistScore *)

(** The number [dividend / divisor]. *)
Record ratio : Type := { dividend : Z; divisor : Z }.

(** The statistics stored for a user. *)
Record statistics : Type := {
  highestScore : Z;
  lowestScore : Z;
  averageScore : ratio;
  totalScore : Z;
  scores : Z
}.

(** [persistScore]: what is written for the score of the round, from what
    is stored; [None] is a user without a highest score. *)
Definition persistScore (score : Z) (stored : option statistics) : statistics :=
  let first :=
    {| highestScore := score; lowestScore := score;
       averageScore := {| dividend := score; divisor := 1 |};
       totalScore := score; scores := 1 |} in
  match stored with
  | Some s =>
      if negb (highestScore s =? 0)%Z then
        let highestScore' := if (score >? highestScore s)%Z then score else highestScore s in
        let lowestScore' := if (score <? lowestScore s)%Z then score else lowestScore s in
        let scores' := (scores s + 1)%Z in
        let totalScore' := (totalScore s + score)%Z in
        {| highestScore := highestScore'; lowestScore := lowestScore';
           averageScore := {| dividend := totalScore'; divisor := scores' |};
           totalScore := totalScore'; scores := scores' |}
      else first
  | None => first
  end.

Section Random.

(** [random n] is the result of the call number [n] of [Math.random()]. *)
Variable random : nat -> JS.draw.

(** *** selectQuestions *)

(** The inner loop [while (checked.length !== questions.length)], for a
    corpus of [n] questions: the index found (if any), [checked] and the
    number of draws when the loop is left. *)
Fixpoint search (fuel n : nat) (selected : list (option Z))
    (previousQuestions checked : list Z) (calls : nat)
  : outcome (option Z * list Z * nat) :=
  match fuel with
  | O => OutOfFuel
  | S fuel' =>
      if negb (List.length checked =? n) then
        let index := Utils.getRandomNumber 0 (Z.of_nat n - 1) (random calls) in
        if (JS.indexOfBy optZ_eqb (Some index) selected =? -1)%Z &&
           (JS.indexOfBy Z.eqb index previousQuestions =? -1)%Z
        then Done (Some index, checked, S calls)
        else
          search fuel' n selected previousQuestions
            (if (JS.indexOfBy Z.eqb index checked =? -1)%Z
             then checked ++ [index] else checked)
            (S calls)
      else Done (None, checked, calls)
  end.

(** The outer loop [while (i < gameLength)]; [remaining] is
    [gameLength - i], and every inner loop gets [fuel]. *)
Fixpoint selectLoop (fuel n remaining : nat) (previousQuestions : list Z)
    (selected : list (option Z)) (checked : list Z)
    (previousIndex calls : nat)
  : outcome (list (option Z) * nat) :=
  match remaining with
  | O => Done (selected, calls)
  | S remaining' =>
      match search fuel n selected previousQuestions checked calls with
      | OutOfFuel => OutOfFuel
      | Done (Some index, checked', calls') =>
          selectLoop fuel n remaining' previousQuestions
            (selected ++ [Some index]) checked' previousIndex calls'
      | Done (None, checked', calls') =>
          selectLoop fuel n remaining' previousQuestions
            (selected ++ [nth_error previousQuestions previousIndex]) checked'
            (S previousIndex) calls'
      end
  end.

(** [previousQuestions.slice(gameLength, previousQuestions.length)] when the
    history is too long or covers the corpus. *)
Definition trimHistory (gameLength n : nat) (previousQuestions : list Z) : list Z :=
  if (MAX_PREVIOUS_QUESTIONS <? List.length previousQuestions) ||
     (n <=? List.length previousQuestions)
  then skipn gameLength previousQuestions
  else previousQuestions.

Definition selectQuestions (fuel calls gameLength : nat)
    (previousQuestions : list Z) (questions : option (list string))
  : outcome selection :=
  match questions with
  | None =>
      Done {| selected := None; newGameLength := gameLength;
              newPreviousQuestions := map Some previousQuestions;
              newCalls := calls |}
  | Some questions =>
      let n := List.length questions in
      let gameLength := if n <? gameLength then n else gameLength in
      let previousQuestions := trimHistory gameLength n previousQuestions in
      match selectLoop fuel n gameLength previousQuestions [] [] 0 calls with
      | OutOfFuel => OutOfFuel
      | Done (selected, calls') =>
          Done {| selected := Some selected; newGameLength := gameLength;
                  newPreviousQuestions := map Some previousQuestions ++ selected;
                  newCalls := calls' |}
      end
  end.

(** *** selectAnswers *)

(** The loop [for (let i = 0; i < answers.length; i++)]; [remaining] is
    [answers.length - i] and [first] is [answers[0]]. *)
Fixpoint selectAnswersLoop (remaining i : nat) (correctIndex : Z)
    (first : option string) (clonedAnswers : list string)
    (selected : list (option string)) (calls : nat)
  : list (option string) * nat :=
  match remaining with
  | O => (selected, calls)
  | S remaining' =>
      if (Z.of_nat i =? correctIndex)%Z then
        selectAnswersLoop remaining' (S i) correctIndex first clonedAnswers
          (selected ++ [first]) calls
      else
        let index :=
          Utils.getRandomNumber 0 (Z.of_nat (List.length clonedAnswers) - 1)
            (random calls) in
        selectAnswersLoop remaining' (S i) correctIndex first
          (JS.splice1 index clonedAnswers)
          (selected ++ [JS.get clonedAnswers index]) (S calls)
  end.

(** [selectAnswers(correctIndex, answers)]: [None] is [null]. *)
Definition selectAnswers (calls : nat) (correctIndex : Z)
    (answers : option (list string))
  : option (list (option string)) * nat :=
  match answers with
  | None => (None, calls)
  | Some answers =>
      if 1 <? List.length answers then
        let clonedAnswers := skipn 1 answers in
        let '(selected, calls') :=
          selectAnswersLoop (List.length answers) 0 correctIndex
            (nth_error answers 0) clonedAnswers [] calls in
        (Some selected, calls')
      else (None, calls)
  end.

(** The choice of the answers to present, as [startNewRound] and
    [nextQuestion] make it for the stored answers of a question: the
    position of the correct answer and the list ([None] is [null]). *)
Definition presentAnswers (calls : nat) (selectedQuestionAnswers : list string)
  : Z * option (list (option string)) * nat :=
  if isTrueFalseQuestion (Some selectedQuestionAnswers) then
    (0%Z, Some (map Some selectedQuestionAnswers), calls)
  else
    let correctIndex :=
      Utils.getRandomNumber 0
        (Z.of_nat (List.length selectedQuestionAnswers) - 1) (random calls) in
    let '(selectedAnswers, calls') :=
      selectAnswers (S calls) correctIndex (Some selectedQuestionAnswers) in
    (correctIndex, selectedAnswers, calls').

(** *** The handlers of a turn *)

Definition nextQuestion (calls : nat) (d : data) : data * response * nat :=
  if (currentQuestion d =? gameLength d - 1)%Z then
    (d, Ask PLAY_AGAIN_QUESTION_PROMPTS, calls)
  else
    let currentQuestion' := (currentQuestion d + 1)%Z in
    let questionPrompt' :=
      match JS.get (sessionQuestions d) currentQuestion' with
      | Some q => q
      | None => None
      end in
    match JS.get (sessionAnswers d) currentQuestion' with
    | Some (Some selectedQuestionAnswers) =>
        let '(correctIndex, selectedAnswers', calls') :=
          presentAnswers calls selectedQuestionAnswers in
        match selectedAnswers' with
        | Some selectedAnswers' =>
            ({| sessionQuestions := sessionQuestions d;
                selectedAnswers := selectedAnswers';
                correctAnswer := correctIndex;
                sessionAnswers := sessionAnswers d;
                questionPrompt := questionPrompt';
                score := score d;
                currentQuestion := currentQuestion';
                gameLength := gameLength d;
                fallbackCount := Some 0%Z;
                correct := correct d |},
             askQuestion questionPrompt' selectedAnswers', calls')
        | None => (d, Tell ANSWERS_PROBLEM, calls')
        end
    | _ => (d, Throws, calls)
    end.

(** The three prompts of [handleNonDictionaryInput]. *)
Definition handleNonDictionaryInput (fallbackCount : Z) : response :=
  if (fallbackCount =? 1)%Z then Ask RAPID_REPROMPTS
  else if (fallbackCount =? 2)%Z then Ask FALLBACK_PROMPT_1
  else Tell FALLBACK_PROMPT_2.

Definition handleDictionaryInput (calls : nat) (d : data) : data * response * nat :=
  nextQuestion calls (setCorrect false d).

(** The loops of [unknownIntent] over the answers and their synonyms: the
    position of the first answer of which a synonym matches the raw input
    fuzzily or is one of its parts. *)
Definition matchedAnswer (selectedAnswers : list (option string)) (rawInput : string)
  : option nat :=
  let parts := JS.split Utils.SPACE rawInput in
  findIndex
    (fun answer =>
       existsb
         (fun synonym =>
            Utils.fuzzyMatch synonym rawInput ||
            existsb (fun part => sameString part synonym) parts)
         (Utils.getSynonyms answer))
    selectedAnswers 0.

(** [unknownIntent(app, otherIntentTriggered)], with the handler that it
    calls for a matched answer as a parameter. *)
Definition unknownIntentWith
    (valueIntent : JS.value -> nat -> data -> data * response * nat)
    (req : request) (otherIntentTriggered : bool) (calls : nat) (d : data)
  : data * response * nat :=
  let fallbackCount :=
    (match fallbackCount d with None => 0 | Some c => c end + 1)%Z in
  let d := setFallbackCount (Some fallbackCount) d in
  let selectedAnswers := selectedAnswers d in
  let rawInput := JS.trim (rawInput req) in
  let matched :=
    if negb otherIntentTriggered
    then matchedAnswer selectedAnswers rawInput
    else None in
  match matched with
  | Some i => valueIntent (JS.num (Z.of_nat i + 1)) calls d
  | None =>
      match dictionary req with
      | Hit => handleDictionaryInput calls d
      | Miss | Failed => (d, handleNonDictionaryInput fallbackCount, calls)
      end
  end.

(** [valueIntent(app, choice, ssml)]; [last] and [middle] are the flags
    that [lastIntent] and [middleIntent] set for the request. *)
Definition valueIntent (req : request) (last middle : bool) (choice : JS.value)
    (calls : nat) (d : data) : data * response * nat :=
  let selectedAnswers := selectedAnswers d in
  let number := JS.undefined in
  let number :=
    if negb (JS.truthy choice) then
      match findIndex
              (fun answer =>
                 existsb (fun synonym => sameString synonym (rawInput req))
                         (Utils.getSynonyms answer))
              selectedAnswers 0 with
      | Some i => JS.num (Z.of_nat i + 1)
      | None => number
      end
    else number in
  let number := orElse number (numberArgument req) in
  let number := orElse number (anyArgument req) in
  let number := orElse number (ordinalArgument req) in
  let number :=
    if negb (JS.truthy number) && last
    then JS.str (JS.toString (List.length selectedAnswers)) else number in
  let number :=
    if negb (JS.truthy number) && middle
    then JS.str (JS.toString (List.length selectedAnswers / 2 + 1)) else number in
  let number := orElse number choice in
  if JS.truthy (isValidAnswer number selectedAnswers) then
    let answer := JS.parseInt number in
    let d :=
      if optZ_eqb (Some (correctAnswer d + 1)%Z) answer
      then setScore (score d + 1)%Z (setCorrect true d)
      else setScore (score d) (setCorrect false d) in
    nextQuestion calls d
  else
    (* with [otherIntentTriggered] set, [unknownIntent] calls no handler *)
    unknownIntentWith (fun _ calls d => (d, Throws, calls)) req true calls d.

Definition unknownIntent (req : request) (otherIntentTriggered : bool)
    (calls : nat) (d : data) : data * response * nat :=
  unknownIntentWith (valueIntent req false false) req otherIntentTriggered calls d.

(** The intents of a turn that reach these handlers. *)
Inductive intent : Type :=
| UNKNOWN_INTENT
| VALUE_INTENT
| ORDINAL_INTENT
| LAST_INTENT
| MIDDLE_INTENT.

Definition handleRequest (i : intent) (req : request) (calls : nat) (d : data)
  : data * response * nat :=
  match i with
  | UNKNOWN_INTENT => unknownIntent req false calls d
  | VALUE_INTENT | ORDINAL_INTENT => valueIntent req false false JS.undefined calls d
  | LAST_INTENT => valueIntent req true false JS.null calls d
  | MIDDLE_INTENT => valueIntent req false true JS.null calls d
  end.

(** The turns of a conversation, until a handler closes it: the answers
    in their order and the data after the last turn. *)
Fixpoint converse (turns : list (intent * request)) (calls : nat) (d : data)
  : list response * data :=
  match turns with
  | [] => ([], d)
  | (i, req) :: turns' =>
      let '(d', r, calls') := handleRequest i req calls d in
      match r with
      | Ask _ | Silent =>
          let '(rs, d'') := converse turns' calls' d' in (r :: rs, d'')
      | Tell _ | Throws => ([r], d')
      end
  end.

(** *** startNewRound *)

(** [startNewRound(callback)] on what the database returns ([None] when
    there is no data): how it ends, the variable [gameLength], the history
    stored for the user and the number of draws used.  [correct] is the
    field of [app.data] that a round before may have set. *)
Definition startNewRound (fuel calls gameLength : nat) (previousQuestions : list Z)
    (correct : option bool) (db : option database)
  : outcome (round * nat * list (option Z) * nat) :=
  let noQuestions :=
    Done (Error "No questions.", gameLength, map Some previousQuestions, calls) in
  match db with
  | None => noQuestions
  | Some db =>
      match questions db with
      | None => noQuestions
      | Some questions =>
          match selectQuestions fuel calls gameLength previousQuestions (Some questions) with
          | OutOfFuel => OutOfFuel
          | Done s =>
              let left r calls := Done (r, newGameLength s, newPreviousQuestions s, calls) in
              match selected s with
              | None => left (Error "Not enough questions.") (newCalls s)
              | Some selectedQuestions =>
                  let first := match selectedQuestions with i :: _ => i | [] => None end in
                  let questionPrompt := at_ questions first in
                  match answers db with
                  | None => left TypeError (newCalls s)
                  | Some answers =>
                      match at_ answers first with
                      | None => left TypeError (newCalls s)
                      | Some selectedQuestionAnswers =>
                          let '(correctIndex, selectedAnswers, calls') :=
                            presentAnswers (newCalls s) selectedQuestionAnswers in
                          match selectedAnswers with
                          | None => left (Error "There is a problem with the answers.") calls'
                          | Some selectedAnswers =>
                              let sessionFollowUps :=
                                map (fun i =>
                                       match followUps db with
                                       | Some followUps =>
                                           if 0 <? List.length followUps
                                           then at_ followUps i else Some ""
                                       | None => Some ""
                                       end) selectedQuestions in
                              left
                                (Started
                                   {| sessionQuestions := map (at_ questions) selectedQuestions;
                                      selectedAnswers := selectedAnswers;
                                      correctAnswer := correctIndex;
                                      sessionAnswers := map (at_ answers) selectedQuestions;
                                      questionPrompt := questionPrompt;
                                      score := 0;
                                      currentQuestion := 0;
                                      gameLength := Z.of_nat (newGameLength s);
                                      fallbackCount := Some 0%Z;
                                      correct := correct |}
                                   sessionFollowUps)
                                calls'
                          end
                      end
                  end
              end
          end
      end
  end.

(** *** The intents that name an answer *)

Definition dontKnowIntent (calls : nat) (d : data) : data * response * nat :=
  nextQuestion calls d.

Definition trueIntent (req : request) (calls : nat) (d : data)
  : data * response * nat :=
  valueIntent req false false
    (JS.num (labelled (JS.str Utils.TRUE) (selectedAnswers d))) calls d.

Definition falseIntent (req : request) (calls : nat) (d : data)
  : data * response * nat :=
  valueIntent req false false
    (JS.num (labelled (JS.str Utils.FALSE) (selectedAnswers d))) calls d.

(** [listIntent]: [selectedOption] is what [app.getSelectedOption()]
    returns, [None] for [null]. *)
Definition listIntent (selectedOption : option string) (req : request)
    (calls : nat) (d : data) : data * response * nat :=
  let choice :=
    match selectedOption with Some s => JS.str s | None => JS.null end in
  valueIntent req false false (JS.num (labelled choice (selectedAnswers d))) calls d.

(** The entries of [actionMap] for the handlers above; the entry of
    [ITEM_INTENT] comes with the option that the user has selected. *)
Inductive action : Type :=
| REQUEST (i : intent)
| DONT_KNOW_INTENT
| TRUE_INTENT
| FALSE_INTENT
| ITEM_INTENT (selectedOption : option string).

Definition act (a : action) (req : request) (calls : nat) (d : data)
  : data * response * nat :=
  match a with
  | REQUEST i => handleRequest i req calls d
  | DONT_KNOW_INTENT => dontKnowIntent calls d
  | TRUE_INTENT => trueIntent req calls d
  | FALSE_INTENT => falseIntent req calls d
  | ITEM_INTENT selectedOption => listIntent selectedOption req calls d
  end.

End Random.

End Trivia.

(** ** Vocabulary of the statements *)

(** A source of random numbers that walks through the [n] values of
    [getRandomNumber(0, n - 1)] in turn: its draw number [p] is
    [(p mod n) / n]. *)
Definition roundRobin (n : nat) : nat -> JS.draw :=
  fun p => {| JS.numer := p mod n; JS.gap := n - 1 - p mod n |}.

(** A source that returns 0 at every call. *)
Definition stuck : nat -> JS.draw := fun _ => {| JS.numer := 0; JS.gap := 0 |}.

(** A source that returns 0 at its first [k] calls and 1/2 afterwards. *)
Definition late (k : nat) : nat -> JS.draw :=
  fun p => if p <? k then {| JS.numer := 0; JS.gap := 0 |}
           else {| JS.numer := 1; JS.gap := 0 |}.

(** The arguments on which [compareStrings] answers false at once. *)
Definition missing (v : JS.value) : Prop :=
  v = JS.null \/ v = JS.undefined \/ v = JS.str "".

(** The index that [selectQuestions] draws at the call number [p] of
    [Math.random()], for a corpus of [n] questions. *)
Definition drawn (random : nat -> JS.draw) (n p : nat) : Z :=
  Utils.getRandomNumber 0 (Z.of_nat n - 1) (random p).

(** Every [window] consecutive draws contain every index of the corpus. *)
Definition fair (random : nat -> JS.draw) (n window : nat) : Prop :=
  forall p j, (0 <= j < Z.of_nat n)%Z ->
    exists q, q < window /\ drawn random n (p + q) = j.

(** The indices of a corpus of [n] questions. *)
Definition indices (n : nat) : list Z := map Z.of_nat (seq 0 n).

(** The indices of the corpus that the history does not contain. *)
Definition absentFrom (n : nat) (previousQuestions : list Z) : list Z :=
  filter (fun j => (JS.indexOfBy Z.eqb j previousQuestions =? -1)%Z) (indices n).

(** Two small corpora for the examples. *)
Definition twoQuestions : list string := ["q0"; "q1"].
Definition fiveQuestions : list string := ["q0"; "q1"; "q2"; "q3"; "q4"].

(** The state of the loops of [selectQuestions]: [checked] holds indices
    of the corpus, each once. *)
Definition checkedOk (n : nat) (checked : list Z) : Prop :=
  NoDup checked /\ forall j, In j checked -> (0 <= j < Z.of_nat n)%Z.

(** The array [selected] after [accepted] was drawn and [previousIndex]
    entries were taken over from the history. *)
Definition layout (previousQuestions : list Z) (accepted : list Z)
    (previousIndex : nat) : list (option Z) :=
  map Some accepted ++ map (nth_error previousQuestions) (seq 0 previousIndex).

(** What holds each time the condition [i < gameLength] is evaluated. *)
Record loopInv (n : nat) (previousQuestions accepted : list Z)
    (previousIndex : nat) (checked : list Z) : Prop := {
  inv_nodup : NoDup accepted;
  inv_fresh : forall j, In j accepted ->
                (0 <= j < Z.of_nat n)%Z /\ ~ In j previousQuestions;
  inv_checked : checkedOk n checked;
  inv_rejected : forall j, In j checked -> In j accepted \/ In j previousQuestions;
  inv_full : 0 < previousIndex -> List.length checked = n
}.

(** A word: a string without space and without separator. *)
Definition word (w : string) : Prop :=
  JS.includesChar Utils.SPACE w = false /\ JS.includesChar Utils.SEPARATOR w = false.

(** Every character of [w] occurs in [s]. *)
Definition charsIn (w s : string) : Prop :=
  forall c, JS.includesChar c w = true -> JS.includesChar c s = true.

(** What the passes of [generateSynonyms] keep true of the synonyms [g]
    stored for the value [k]: [k] is at the head and nowhere else, every
    other entry is a word, and the synonyms of a word are at most the word
    itself. *)
Definition groupInv (k : string) (g : list string) : Prop :=
  (g = [] \/ exists rest, g = k :: rest /\ ~ In k rest) /\
  (forall w, In w g -> w = k \/ word w) /\
  (word k -> g = [] \/ g = [k]).

Definition storeInv (m : Utils.store) : Prop :=
  forall k g, Utils.lookup k m = Some g -> groupInv k g.

(** The synonyms that [findAllSynonyms] stores for a trimmed value. *)
Definition synonymsFor (value : string) : list string :=
  if negb (JS.includesChar Utils.SEPARATOR value)
  then Utils.plainSynonyms value
  else Utils.separatedSynonyms value.

(** A request of which only the raw input is filled, for an input that
    has no entry in the dictionary. *)
Definition said (rawInput : string) : Trivia.request :=
  {| Trivia.rawInput := rawInput;
     Trivia.numberArgument := JS.null;
     Trivia.anyArgument := JS.null;
     Trivia.ordinalArgument := JS.null;
     Trivia.dictionary := Trivia.Miss |}.

(** A request whose intent has filled the argument [number]. *)
Definition chose (number : string) : Trivia.request :=
  {| Trivia.rawInput := number;
     Trivia.numberArgument := JS.str number;
     Trivia.anyArgument := JS.null;
     Trivia.ordinalArgument := JS.null;
     Trivia.dictionary := Trivia.Miss |}.

(** A session that has reached the fourth and last question of its round,
    so far without unknown input on that question. *)
Definition lastQuestion : Trivia.data :=
  {| Trivia.sessionQuestions := [Some "q0"; Some "q1"; Some "q2"; Some "q3"];
     Trivia.selectedAnswers :=
       [Some "London"; Some "Paris|City of Light"; Some "Berlin"; Some "Madrid"];
     Trivia.correctAnswer := 1;
     Trivia.sessionAnswers :=
       [Some ["True"; "False"]; Some ["Nile"; "Amazon"]; Some ["Mars"; "Venus"];
        Some ["Paris|City of Light"; "London"; "Berlin"; "Madrid"]];
     Trivia.questionPrompt := Some "q3";
     Trivia.score := 2;
     Trivia.currentQuestion := 3;
     Trivia.gameLength := 4;
     Trivia.fallbackCount := Some 0%Z;
     Trivia.correct := Some true |}.

(** The same session one question earlier. *)
Definition thirdQuestion : Trivia.data :=
  {| Trivia.sessionQuestions := [Some "q0"; Some "q1"; Some "q2"; Some "q3"];
     Trivia.selectedAnswers := [Some "Venus"; Some "Mars"];
     Trivia.correctAnswer := 1;
     Trivia.sessionAnswers :=
       [Some ["True"; "False"]; Some ["Nile"; "Amazon"]; Some ["Mars"; "Venus"];
        Some ["Paris|City of Light"; "London"; "Berlin"; "Madrid"]];
     Trivia.questionPrompt := Some "q2";
     Trivia.score := 2;
     Trivia.currentQuestion := 2;
     Trivia.gameLength := 4;
     Trivia.fallbackCount := Some 0%Z;
     Trivia.correct := Some true |}.

(** The input of a turn is not resolved: no answer matches it and the
    dictionary has no entry for it. *)
Definition unresolved (d : Trivia.data) (req : Trivia.request) : Prop :=
  Trivia.matchedAnswer (Trivia.selectedAnswers d) (JS.trim (Trivia.rawInput req)) = None /\
  Trivia.dictionary req <> Trivia.Hit.

(** The session data of a round in progress: the current question is one
    of the round, and the answers on offer are the answers stored for it,
    at least two, with the first stored answer at the position that is
    recorded as the correct one. *)
Definition consistent (d : Trivia.data) : Prop :=
  (0 <= Trivia.currentQuestion d < Trivia.gameLength d)%Z /\
  exists answers,
    JS.get (Trivia.sessionAnswers d) (Trivia.currentQuestion d) = Some (Some answers) /\
    2 <= List.length answers /\
    Permutation (Trivia.selectedAnswers d) (map Some answers) /\
    JS.get (Trivia.selectedAnswers d) (Trivia.correctAnswer d) =
      Some (nth_error answers 0).

(** What the handler of a turn may leave of the session data [d]: the
    round stays consistent and keeps its length, the score and the number
    of the current question stay or grow by one, and the score grows only
    with the answer marked as correct. *)
Definition advances (d : Trivia.data) (result : Trivia.data * Trivia.response * nat)
  : Prop :=
  let '(d', _, _) := result in
  consistent d' /\
  Trivia.gameLength d' = Trivia.gameLength d /\
  (Trivia.score d <= Trivia.score d' <= Trivia.score d + 1)%Z /\
  (Trivia.currentQuestion d <= Trivia.currentQuestion d' <= Trivia.currentQuestion d + 1)%Z /\
  (Trivia.score d' = (Trivia.score d + 1)%Z -> Trivia.correct d' = Some true).

(** A request that carries no argument. *)
Definition bare (req : Trivia.request) : Prop :=
  JS.truthy (Trivia.numberArgument req) = false /\
  JS.truthy (Trivia.anyArgument req) = false /\
  JS.truthy (Trivia.ordinalArgument req) = false.

(** A true/false question as it is presented, with the first answer
    recorded as the correct one. *)
Definition trueFalseQuestion : Trivia.data :=
  {| Trivia.sessionQuestions := [Some "q0"; Some "q1"];
     Trivia.selectedAnswers := [Some "False"; Some "True"];
     Trivia.correctAnswer := 0;
     Trivia.sessionAnswers := [Some ["False"; "True"]; Some ["Nile"; "Amazon"]];
     Trivia.questionPrompt := Some "q0";
     Trivia.score := 0;
     Trivia.currentQuestion := 0;
     Trivia.gameLength := 2;
     Trivia.fallbackCount := Some 0%Z;
     Trivia.correct := None |}.

(** A database of two questions. *)
Definition twoQuestionGame : Trivia.database :=
  {| Trivia.questions := Some twoQuestions;
     Trivia.answers := Some [["False"; "True"]; ["Nile"; "Amazon"]];
     Trivia.followUps := None |}.


(** The statistics of a user after rounds with the scores [rounds], in
    their order, from what was stored before. *)
Definition persistScores (rounds : list Z) (stored : option Trivia.statistics)
  : option Trivia.statistics :=
  fold_left (fun stored score => Some (Trivia.persistScore score stored)) rounds stored.


(** * Properties *)

(** ** Strings and values *)

Lemma levenshtein_empty_r (s : string) : Utils.levenshtein s "" = String.length s.
Proof. destruct s; reflexivity. Qed.

Lemma levenshtein_step (a b : ascii) (s t : string) :
  Utils.levenshtein (String a s) (String b t) =
  Nat.min (Nat.min (S (Utils.levenshtein s (String b t)))
                   (S (Utils.levenshtein (String a s) t)))
          (Utils.levenshtein s t + if Ascii.eqb a b then 0 else 1).
Proof. reflexivity. Qed.

(** The edit distance does not depend on the order of its arguments. *)
Lemma levenshtein_sym (s t : string) : Utils.levenshtein s t = Utils.levenshtein t s.
Proof.
  revert t.
  induction s as [|a s IHs]; intro t.
  - now rewrite levenshtein_empty_r.
  - induction t as [|b t IHt].
    + now rewrite levenshtein_empty_r.
    + rewrite !levenshtein_step.
      rewrite (IHs (String b t)), IHt, (IHs t), (Ascii.eqb_sym b a).
      f_equal. apply Nat.min_comm.
Qed.

(** C10.  [fuzzyMatch] gives the same answer when its two arguments are
    exchanged. *)
Theorem fuzzyMatch_comm (a b : string) : Utils.fuzzyMatch a b = Utils.fuzzyMatch b a.
Proof.
  unfold Utils.fuzzyMatch.
  rewrite (levenshtein_sym (Utils.removePunctuationAndSpaces (JS.toLowerCase a))).
  f_equal. apply andb_comm.
Qed.

(** C6.  With [v1] and [v2] the two arguments in lower case and without
    punctuation and spaces: [fuzzyMatch] is false as soon as [v1] or [v2]
    has at most three characters; when both have at least four, it is true
    at edit distance 1 and false at edit distance 2. *)
Theorem fuzzyMatch_boundary (a b : string) :
  let v1 := Utils.removePunctuationAndSpaces (JS.toLowerCase a) in
  let v2 := Utils.removePunctuationAndSpaces (JS.toLowerCase b) in
  (String.length v1 <= 3 \/ String.length v2 <= 3 -> Utils.fuzzyMatch a b = false) /\
  (4 <= String.length v1 -> 4 <= String.length v2 ->
   Utils.levenshtein v1 v2 = 1 -> Utils.fuzzyMatch a b = true) /\
  (4 <= String.length v1 -> 4 <= String.length v2 ->
   Utils.levenshtein v1 v2 = 2 -> Utils.fuzzyMatch a b = false).
Proof.
  intros v1 v2. unfold Utils.fuzzyMatch. fold v1. fold v2.
  repeat split.
  - intros [H | H].
    + replace (3 <? String.length v1) with false; [reflexivity|].
      symmetry. apply Nat.ltb_ge. exact H.
    + replace (3 <? String.length v2) with false; [now rewrite andb_false_r|].
      symmetry. apply Nat.ltb_ge. exact H.
  - intros H1 H2 Hd. rewrite Hd.
    apply Nat.ltb_lt in H1, H2. now rewrite H1, H2.
  - intros _ _ Hd. rewrite Hd. apply andb_false_r.
Qed.

Lemma fuzzyMatch_boundary_witness :
  Utils.fuzzyMatch "Rome" "Roma" = true /\
  Utils.fuzzyMatch "Rio" "Rio" = false /\
  Utils.fuzzyMatch "Paris" "Parisss" = false.
Proof.
  split; [|split].
  - destruct (fuzzyMatch_boundary "Rome" "Roma") as (_ & H & _).
    apply H; vm_compute; try reflexivity; lia.
  - destruct (fuzzyMatch_boundary "Rio" "Rio") as (H & _).
    apply H. left. vm_compute. lia.
  - destruct (fuzzyMatch_boundary "Paris" "Parisss") as (_ & _ & H).
    apply H; vm_compute; try reflexivity; lia.
Defined.

(** C9.  [compareStrings] is false when an argument is null, undefined or
    the empty string, also for two empty strings; for two strings that are
    not empty it tells whether they are equal in lower case and trimmed. *)
Theorem compareStrings_missing_or_equal :
  (forall v1 v2, missing v1 \/ missing v2 -> Utils.compareStrings v1 v2 = Some false) /\
  Utils.compareStrings (JS.str "") (JS.str "") = Some false /\
  (forall s1 s2, s1 <> "" -> s2 <> "" ->
     Utils.compareStrings (JS.str s1) (JS.str s2) =
     Some (JS.trim (JS.toLowerCase s1) =? JS.trim (JS.toLowerCase s2))%string).
Proof.
  split; [|split].
  - intros v1 v2 [H | H].
    + destruct H as [-> | [-> | ->]]; reflexivity.
    + unfold Utils.compareStrings, JS.and.
      destruct (JS.truthy v1) eqn:E1.
      * destruct H as [-> | [-> | ->]]; reflexivity.
      * now rewrite E1.
  - reflexivity.
  - intros s1 s2 H1 H2.
    destruct s1 as [|c1 s1]; [congruence|].
    destruct s2 as [|c2 s2]; [congruence|].
    reflexivity.
Qed.

Lemma compareStrings_missing_or_equal_witness :
  Utils.compareStrings JS.undefined (JS.str "Paris") = Some false /\
  Utils.compareStrings (JS.str " PARIS") (JS.str "paris ") = Some true.
Proof.
  destruct compareStrings_missing_or_equal as [Hm [_ He]].
  split.
  - apply Hm. left. right. left. reflexivity.
  - apply (He " PARIS" "paris "); discriminate.
Defined.

Lemma parseInt_falsy (answer : JS.value) (n : Z) :
  JS.truthy answer = false -> JS.parseInt answer = Some n -> n = 0%Z.
Proof.
  destruct answer as [| |b|z|s]; simpl; try discriminate.
  - intros H E. apply negb_false_iff, Z.eqb_eq in H. congruence.
  - intros H. apply negb_false_iff, String.eqb_eq in H. subst s. discriminate.
Qed.

(** C7.  [isValidAnswer(answer, answers)] is [true] exactly when
    [parseInt(answer)] is an integer from 1 to [answers.length]. *)
Theorem isValidAnswer_iff {A : Type} (answer : JS.value) (answers : list A) :
  Trivia.isValidAnswer answer answers = JS.bool true <->
  exists n, JS.parseInt answer = Some n /\
            (1 <= n)%Z /\ (n <= Z.of_nat (List.length answers))%Z.
Proof.
  unfold Trivia.isValidAnswer, JS.and.
  destruct (JS.truthy answer) eqn:Et.
  - destruct (JS.parseInt answer) as [n|] eqn:Ep; simpl.
    + destruct (n <? Z.of_nat (List.length answers) + 1)%Z eqn:El; simpl.
      * split.
        -- intros H. injection H as H. exists n. split; [reflexivity|]. lia.
        -- intros (m & Hm & H1 & H2). injection Hm as <-.
           f_equal. lia.
      * split; [discriminate|].
        intros (m & Hm & H1 & H2). injection Hm as <-. lia.
    + split; [discriminate|]. intros (m & Hm & _). discriminate.
  - rewrite Et. simpl. rewrite Et.
    split.
    + intros H. rewrite H in Et. discriminate.
    + intros (n & Hn & H1 & _).
      pose proof (parseInt_falsy answer n Et Hn). lia.
Qed.

(** ** Random numbers and arrays *)

Lemma getRandomNumber_range (r : JS.draw) (k : Z) :
  (0 < k)%Z ->
  (0 <= Utils.getRandomNumber 0 (k - 1) r < k)%Z.
Proof.
  intros Hk. unfold Utils.getRandomNumber, JS.floorTimes.
  replace (k - 1 - 0 + 1)%Z with k by lia.
  rewrite Z.add_0_r.
  assert (Hd : (0 < Z.of_nat (JS.numer r + JS.gap r + 1))%Z) by lia.
  split.
  - apply Z.div_pos; [|exact Hd]. apply Z.mul_nonneg_nonneg; lia.
  - apply Z.div_lt_upper_bound; [exact Hd|].
    apply Z.mul_lt_mono_pos_r; [exact Hk|]. lia.
Qed.

Lemma removeAt_length {A : Type} (n : nat) (l : list A) :
  n < List.length l -> List.length (JS.removeAt n l) = List.length l - 1.
Proof.
  revert n. induction l as [|x l IH]; intros [|n] H; simpl in *; try lia.
  rewrite IH by lia. lia.
Qed.

Lemma removeAt_perm {A : Type} (n : nat) (l : list A) (x : A) :
  nth_error l n = Some x -> Permutation l (x :: JS.removeAt n l).
Proof.
  revert n. induction l as [|y l IH]; intros [|n] H; simpl in *; try discriminate.
  - injection H as ->. apply Permutation_refl.
  - apply IH in H. rewrite perm_swap. now apply perm_skip.
Qed.

Lemma splice1_inside {A : Type} (index : Z) (l : list A) :
  (0 <= index < Z.of_nat (List.length l))%Z ->
  exists x, JS.get l index = Some x /\
            Permutation l (x :: JS.splice1 index l) /\
            List.length (JS.splice1 index l) = List.length l - 1.
Proof.
  intros H. unfold JS.get, JS.splice1.
  replace (index <? 0)%Z with false by (symmetry; apply Z.ltb_ge; lia).
  rewrite Z.min_l by lia.
  destruct (nth_error l (Z.to_nat index)) as [x|] eqn:E.
  - exists x. split; [reflexivity|]. split.
    + now apply removeAt_perm.
    + apply removeAt_length. lia.
  - apply nth_error_None in E. lia.
Qed.

(** ** selectAnswers *)

Section SelectAnswers.

Variable random : nat -> JS.draw.

Lemma selectAnswersLoop_spec (a0 : string) (c : Z) :
  forall remaining i clonedAnswers placed calls,
    ((Z.of_nat i <= c)%Z ->
       remaining = S (List.length clonedAnswers) /\ (c < Z.of_nat (i + remaining))%Z) ->
    ((c < Z.of_nat i)%Z -> remaining = List.length clonedAnswers) ->
    exists tail calls',
      Trivia.selectAnswersLoop random remaining i c (Some a0) clonedAnswers
        (map Some placed) calls = (map Some (placed ++ tail), calls') /\
      Permutation tail
        (if (Z.of_nat i <=? c)%Z then a0 :: clonedAnswers else clonedAnswers) /\
      ((Z.of_nat i <= c)%Z -> nth_error tail (Z.to_nat c - i) = Some a0).
Proof.
  induction remaining as [|r IH]; intros i cloned placed calls Hle Hgt.
  - destruct (Z.leb_spec (Z.of_nat i) c) as [L | L].
    + destruct (Hle L) as [E _]. discriminate.
    + specialize (Hgt L). destruct cloned; [|discriminate].
      exists [], calls. simpl. rewrite app_nil_r.
      split; [reflexivity|]. split; [constructor|]. lia.
  - simpl. destruct (Z.eqb_spec (Z.of_nat i) c) as [E | N].
    + destruct Hle as [Hr _]; [lia|]. injection Hr as Hr.
      destruct (IH (S i) cloned (placed ++ [a0]) calls) as (tail & calls' & Hrun & Hperm & _);
        [lia | intros _; exact Hr |].
      exists (a0 :: tail), calls'.
      rewrite map_app in Hrun. simpl in Hrun. rewrite Hrun, <- app_assoc. simpl.
      split; [reflexivity|].
      replace (Z.of_nat (S i) <=? c)%Z with false in Hperm
        by (symmetry; apply Z.leb_gt; lia).
      replace (Z.of_nat i <=? c)%Z with true by (symmetry; apply Z.leb_le; lia).
      split; [now apply perm_skip|].
      intros _. replace (Z.to_nat c - i) with 0 by lia. reflexivity.
    + assert (Hlen : 0 < List.length cloned).
      { destruct (Z.leb_spec (Z.of_nat i) c) as [L | L].
        - destruct (Hle L) as [Hr Hc]. lia.
        - specialize (Hgt L). lia. }
      set (index := Utils.getRandomNumber 0 (Z.of_nat (List.length cloned) - 1) (random calls)).
      assert (Hi : (0 <= index < Z.of_nat (List.length cloned))%Z)
        by (apply getRandomNumber_range; lia).
      destruct (splice1_inside index cloned Hi) as (x & Hx & Hp & Hl).
      rewrite Hx.
      destruct (IH (S i) (JS.splice1 index cloned) (placed ++ [x]) (S calls))
        as (tail & calls' & Hrun & Hperm & Hnth).
      { intros L. destruct Hle as [Hr Hc]; [lia|]. split; lia. }
      { intros L. destruct (Z.leb_spec (Z.of_nat i) c) as [L' | L'].
        - lia.
        - specialize (Hgt L'). lia. }
      exists (x :: tail), calls'.
      rewrite map_app in Hrun. simpl in Hrun. rewrite Hrun, <- app_assoc. simpl.
      split; [reflexivity|]. split.
      * destruct (Z.leb_spec (Z.of_nat i) c) as [L | L].
        -- replace (Z.of_nat (S i) <=? c)%Z with true in Hperm
             by (symmetry; apply Z.leb_le; lia).
           apply Permutation_trans with (x :: a0 :: JS.splice1 index cloned);
             [now apply perm_skip|].
           apply Permutation_trans with (a0 :: x :: JS.splice1 index cloned);
             [apply perm_swap|].
           apply perm_skip. now apply Permutation_sym.
        -- replace (Z.of_nat (S i) <=? c)%Z with false in Hperm
             by (symmetry; apply Z.leb_gt; lia).
           apply Permutation_trans with (x :: JS.splice1 index cloned);
             [now apply perm_skip | now apply Permutation_sym].
      * intros L. replace (Z.to_nat c - i) with (S (Z.to_nat c - S i)) by lia.
        simpl. apply Hnth. lia.
Qed.

(** C3.  For at least two answers and a position [c] of the list,
    [selectAnswers] returns a permutation of the answers with the first
    stored answer at position [c]; and the answers of a true/false question
    are presented as they are stored. *)
Theorem selectAnswers_permutes (calls : nat) (answers : list string) :
  (forall c : Z,
     2 <= List.length answers ->
     (0 <= c < Z.of_nat (List.length answers))%Z ->
     exists selected calls',
       Trivia.selectAnswers random calls c (Some answers) =
         (Some (map Some selected), calls') /\
       Permutation selected answers /\
       nth_error selected (Z.to_nat c) = nth_error answers 0) /\
  (Trivia.isTrueFalseQuestion (Some answers) = true ->
   Trivia.presentAnswers random calls answers = (0%Z, Some (map Some answers), calls)).
Proof.
  split.
  - intros c Hlen Hc. unfold Trivia.selectAnswers.
    replace (1 <? List.length answers) with true by (symmetry; apply Nat.ltb_lt; lia).
    destruct answers as [|a0 rest]; [simpl in Hlen; lia|].
    destruct (selectAnswersLoop_spec a0 c (List.length (a0 :: rest)) 0 rest [] calls)
      as (tail & calls' & Hrun & Hperm & Hnth).
    { intros _. simpl in *. split; lia. }
    { intros L. simpl in L. lia. }
    simpl skipn. simpl nth_error at 1. simpl map in Hrun. rewrite Hrun.
    exists tail, calls'. split; [reflexivity|].
    replace (Z.of_nat 0 <=? c)%Z with true in Hperm by (symmetry; apply Z.leb_le; lia).
    split; [exact Hperm|].
    rewrite Nat.sub_0_r in Hnth. simpl. apply Hnth. simpl. lia.
  - intros Htf. unfold Trivia.presentAnswers. now rewrite Htf.
Qed.

End SelectAnswers.

Lemma selectAnswers_permutes_witness :
  (exists selected calls',
     Trivia.selectAnswers (roundRobin 3) 0 2 (Some ["Paris"; "London"; "Berlin"; "Madrid"]) =
       (Some (map Some selected), calls') /\
     Permutation selected ["Paris"; "London"; "Berlin"; "Madrid"] /\
     nth_error selected (Z.to_nat 2) = Some "Paris") /\
  Trivia.presentAnswers (roundRobin 3) 0 ["False"; "True"] =
    (0%Z, Some [Some "False"; Some "True"], 0).
Proof.
  split.
  - apply (selectAnswers_permutes (roundRobin 3) 0
             ["Paris"; "London"; "Berlin"; "Madrid"]); simpl; lia.
  - apply (selectAnswers_permutes (roundRobin 3) 0 ["False"; "True"]).
    reflexivity.
Defined.

(** ** selectQuestions *)

Lemma indexOfBy_ge {A : Type} (eqb : A -> A -> bool) (x : A) (l : list A) :
  (-1 <= JS.indexOfBy eqb x l)%Z.
Proof.
  induction l as [|y l IH]; simpl; [lia|].
  destruct (eqb y x); [lia|].
  destruct (Z.eqb_spec (JS.indexOfBy eqb x l) (-1)); lia.
Qed.

Lemma indexOfBy_absent {A : Type} (eqb : A -> A -> bool) (x : A) (l : list A) :
  (forall a b, eqb a b = true <-> a = b) ->
  (JS.indexOfBy eqb x l =? -1)%Z = true <-> ~ In x l.
Proof.
  intros Heq. induction l as [|y l IH]; simpl.
  - split; [tauto | reflexivity].
  - destruct (eqb y x) eqn:E.
    + apply Heq in E. split; [discriminate | tauto].
    + assert (N : y <> x) by (intros F; apply Heq in F; congruence).
      pose proof (indexOfBy_ge eqb x l) as G.
      destruct (Z.eqb_spec (JS.indexOfBy eqb x l) (-1)) as [E1 | E1].
      * split; [|reflexivity]. intros _.
        assert (~ In x l) by (apply IH; first [reflexivity | now apply Z.eqb_eq]).
        tauto.
      * split.
        -- intros F. apply Z.eqb_eq in F. lia.
        -- intros F. exfalso.
           assert (F' : ~ In x l) by tauto.
           apply IH in F'. first [discriminate | apply Z.eqb_eq in F'; lia].
Qed.

Lemma optZ_eqb_eq (a b : option Z) : Trivia.optZ_eqb a b = true <-> a = b.
Proof.
  destruct a as [x|], b as [y|]; simpl; try (split; [discriminate | congruence]).
  - rewrite Z.eqb_eq. split; congruence.
  - tauto.
Qed.

Lemma indexOf_Z_absent (x : Z) (l : list Z) :
  (JS.indexOfBy Z.eqb x l =? -1)%Z = true <-> ~ In x l.
Proof. apply indexOfBy_absent. intros a b. apply Z.eqb_eq. Qed.

Lemma indexOf_optZ_absent (x : option Z) (l : list (option Z)) :
  (JS.indexOfBy Trivia.optZ_eqb x l =? -1)%Z = true <-> ~ In x l.
Proof. apply indexOfBy_absent. apply optZ_eqb_eq. Qed.

Lemma indices_In (n : nat) (j : Z) : In j (indices n) <-> (0 <= j < Z.of_nat n)%Z.
Proof.
  unfold indices. rewrite in_map_iff. split.
  - intros (i & <- & Hi). apply in_seq in Hi. lia.
  - intros H. exists (Z.to_nat j). split; [lia|]. apply in_seq. lia.
Qed.

Lemma indices_NoDup (n : nat) : NoDup (indices n).
Proof.
  unfold indices. generalize 0.
  induction n as [|n IH]; intro start; simpl; constructor.
  - rewrite in_map_iff. intros (i & E & Hi). apply in_seq in Hi. lia.
  - apply IH.
Qed.

Lemma indices_length (n : nat) : List.length (indices n) = n.
Proof. unfold indices. now rewrite length_map, length_seq. Qed.

Lemma drawn_range (random : nat -> JS.draw) (n p : nat) :
  0 < n -> (0 <= drawn random n p < Z.of_nat n)%Z.
Proof. intros H. apply getRandomNumber_range. lia. Qed.

Lemma roundRobin_drawn (n p : nat) :
  0 < n -> drawn (roundRobin n) n p = Z.of_nat (p mod n).
Proof.
  intros Hn. unfold drawn, Utils.getRandomNumber, JS.floorTimes, roundRobin.
  simpl.
  pose proof (Nat.mod_upper_bound p n) as Hm.
  replace (Z.of_nat n - 1 - 0 + 1)%Z with (Z.of_nat n) by lia.
  replace (p mod n + (n - 1 - p mod n) + 1) with n by lia.
  rewrite Z.div_mul by lia. lia.
Qed.

(** The source [roundRobin n] shows every index in every [n] draws. *)
Lemma roundRobin_fair (n : nat) : 0 < n -> fair (roundRobin n) n n.
Proof.
  intros Hn p j Hj.
  pose proof (Nat.mod_upper_bound p n ltac:(lia)) as Hm.
  set (m := p mod n) in *.
  set (i := Z.to_nat j).
  assert (Hi : i < n) by lia.
  destruct (le_lt_dec m i) as [L | L].
  - exists (i - m). split; [lia|].
    rewrite roundRobin_drawn by exact Hn.
    rewrite <- Nat.Div0.add_mod_idemp_l. fold m.
    replace (m + (i - m)) with i by lia.
    rewrite Nat.mod_small by exact Hi. lia.
  - exists (i + n - m). split; [lia|].
    rewrite roundRobin_drawn by exact Hn.
    rewrite <- Nat.Div0.add_mod_idemp_l. fold m.
    replace (m + (i + n - m)) with (i + 1 * n) by lia.
    rewrite Nat.Div0.mod_add, Nat.mod_small by exact Hi. lia.
Qed.

Section SelectQuestions.

Variable random : nat -> JS.draw.
Variable n : nat.
Hypothesis n_pos : 0 < n.
Variable history : list Z.

Lemma checked_full (checked : list Z) :
  checkedOk n checked ->
  (List.length checked = n <-> incl (indices n) checked).
Proof.
  intros [Hnd Hr].
  assert (Hin : incl checked (indices n)) by (intros j Hj; apply indices_In; auto).
  split.
  - intros E. apply NoDup_length_incl; [exact Hnd | | exact Hin].
    rewrite indices_length. lia.
  - intros Hi.
    pose proof (NoDup_incl_length (indices_NoDup n) Hi) as L1.
    pose proof (NoDup_incl_length Hnd Hin) as L2.
    rewrite indices_length in *. lia.
Qed.

Lemma checkedOk_add (checked : list Z) (index : Z) :
  checkedOk n checked -> (0 <= index < Z.of_nat n)%Z ->
  checkedOk n (if (JS.indexOfBy Z.eqb index checked =? -1)%Z
               then checked ++ [index] else checked).
Proof.
  intros [Hnd Hr] Hi.
  destruct (JS.indexOfBy Z.eqb index checked =? -1)%Z eqn:E; [|now split].
  apply indexOf_Z_absent in E. split.
  - apply NoDup_app; [exact Hnd | repeat constructor; intros [] |].
    intros a Ha [<- | []]. tauto.
  - intros j Hj. apply in_app_or in Hj as [Hj | [<- | []]]; auto.
Qed.

Lemma add_In (checked : list Z) (index j : Z) :
  In j (if (JS.indexOfBy Z.eqb index checked =? -1)%Z then checked ++ [index] else checked) <->
  In j checked \/ j = index.
Proof.
  destruct (JS.indexOfBy Z.eqb index checked =? -1)%Z eqn:E.
  - rewrite in_app_iff. simpl. intuition.
  - assert (Hin : In index checked).
    { destruct (in_dec Z.eq_dec index checked) as [I | I]; [exact I|].
      apply indexOf_Z_absent in I. congruence. }
    split; [tauto|]. intros [Hj | ->]; assumption.
Qed.

Lemma search_full (fuel : nat) (selected : list (option Z)) (checked : list Z) (calls : nat) :
  List.length checked = n ->
  Trivia.search random (S fuel) n selected history checked calls =
  Trivia.Done (None, checked, calls).
Proof. intros E. simpl. now rewrite E, Nat.eqb_refl. Qed.

(** What a finished inner loop leaves behind. *)
Lemma search_post (selected : list (option Z)) :
  forall fuel checked calls found checked' calls',
    Trivia.search random fuel n selected history checked calls =
      Trivia.Done (found, checked', calls') ->
    checkedOk n checked ->
    (forall j, In j checked -> In (Some j) selected \/ In j history) ->
    checkedOk n checked' /\
    (forall j, In j checked' -> In (Some j) selected \/ In j history) /\
    match found with
    | Some index =>
        (0 <= index < Z.of_nat n)%Z /\ ~ In (Some index) selected /\
        ~ In index history /\ List.length checked <> n
    | None => List.length checked' = n
    end.
Proof.
  induction fuel as [|fuel IH]; intros checked calls found checked' calls' Hrun Hok Hrej;
    [discriminate|].
  simpl in Hrun. fold (drawn random n calls) in Hrun.
  destruct (List.length checked =? n) eqn:El; simpl in Hrun.
  - injection Hrun as <- <- <-. apply Nat.eqb_eq in El. auto.
  - apply Nat.eqb_neq in El.
    pose proof (drawn_range random n calls n_pos) as Hd.
    destruct ((JS.indexOfBy Trivia.optZ_eqb (Some (drawn random n calls)) selected =? -1)%Z &&
              (JS.indexOfBy Z.eqb (drawn random n calls) history =? -1)%Z) eqn:Ea.
    + injection Hrun as <- <- <-.
      apply andb_true_iff in Ea as [E1 E2].
      apply indexOf_optZ_absent in E1. apply indexOf_Z_absent in E2.
      split; [exact Hok|]. split; [exact Hrej|]. tauto.
    + apply IH in Hrun.
      * destruct Hrun as (H1 & H2 & H3). split; [exact H1|]. split; [exact H2|].
        destruct found; [|exact H3]. tauto.
      * now apply checkedOk_add.
      * intros j Hj. apply add_In in Hj as [Hj | ->]; [auto|].
        apply andb_false_iff in Ea as [E | E].
        -- left. destruct (in_dec (fun a b : option Z =>
                   ltac:(decide equality; apply Z.eq_dec) : {a = b} + {a <> b})
                   (Some (drawn random n calls)) selected) as [I | I]; [exact I|].
           apply indexOf_optZ_absent in I. congruence.
        -- right. destruct (in_dec Z.eq_dec (drawn random n calls) history) as [I | I];
             [exact I|].
           apply indexOf_Z_absent in I. congruence.
Qed.

(** The inner loop is left after [k] draws when these show every index
    that is not yet in [checked]. *)
Lemma search_terminates (selected : list (option Z)) :
  forall k fuel checked calls,
    k < fuel ->
    checkedOk n checked ->
    (forall j, (0 <= j < Z.of_nat n)%Z ->
       In j checked \/ exists q, q < k /\ drawn random n (calls + q) = j) ->
    exists found checked' calls',
      Trivia.search random fuel n selected history checked calls =
        Trivia.Done (found, checked', calls') /\
      calls' <= calls + k.
Proof.
  induction k as [|k IH]; intros fuel checked calls Hf Hok Hcov;
    (destruct fuel as [|fuel]; [lia|]).
  - exists None, checked, calls. split; [|lia].
    apply search_full. apply checked_full; [exact Hok|].
    intros j Hj. apply indices_In in Hj.
    destruct (Hcov j Hj) as [I | (q & Hq & _)]; [exact I | lia].
  - simpl. fold (drawn random n calls).
    destruct (List.length checked =? n); simpl.
    + exists None, checked, calls. split; [reflexivity | lia].
    + destruct ((JS.indexOfBy Trivia.optZ_eqb (Some (drawn random n calls)) selected =? -1)%Z &&
                (JS.indexOfBy Z.eqb (drawn random n calls) history =? -1)%Z).
      * exists (Some (drawn random n calls)), checked, (S calls).
        split; [reflexivity | lia].
      * destruct (IH fuel
                    (if (JS.indexOfBy Z.eqb (drawn random n calls) checked =? -1)%Z
                     then checked ++ [drawn random n calls] else checked) (S calls))
          as (found & checked' & calls' & Hrun & Hc).
        -- lia.
        -- apply checkedOk_add; [exact Hok|]. now apply drawn_range.
        -- intros j Hj. rewrite add_In.
           destruct (Hcov j Hj) as [I | (q & Hq & Hd)]; [auto|].
           destruct q as [|q].
           ++ left. right. rewrite Nat.add_0_r in Hd. now symmetry.
           ++ right. exists q. split; [lia|].
              now replace (S calls + q) with (calls + S q) by lia.
        -- exists found, checked', calls'. split; [exact Hrun | lia].
Qed.

Lemma layout_In (accepted : list Z) (previousIndex : nat) (j : Z) :
  In (Some j) (layout history accepted previousIndex) ->
  In j accepted \/ In j history.
Proof.
  unfold layout. rewrite in_app_iff, !in_map_iff.
  intros [(x & E & Hx) | (i & E & _)].
  - injection E as ->. now left.
  - right. now apply nth_error_In with i.
Qed.

Lemma layout_accept (accepted : list Z) (index : Z) :
  layout history accepted 0 ++ [Some index] = layout history (accepted ++ [index]) 0.
Proof. unfold layout. simpl. now rewrite !app_nil_r, map_app. Qed.

Lemma layout_reuse (accepted : list Z) (previousIndex : nat) :
  layout history accepted previousIndex ++ [nth_error history previousIndex] =
  layout history accepted (S previousIndex).
Proof. unfold layout. now rewrite seq_S, map_app, <- app_assoc. Qed.

(** One turn of the outer loop keeps the invariant: an accepted index
    comes before any entry of the history is taken over. *)
Lemma search_step (fuel : nat) (accepted : list Z) (previousIndex : nat)
    (checked : list Z) (calls : nat) (found : option Z) (checked1 : list Z) (calls1 : nat) :
  loopInv n history accepted previousIndex checked ->
  Trivia.search random fuel n (layout history accepted previousIndex) history checked calls =
    Trivia.Done (found, checked1, calls1) ->
  match found with
  | Some index => previousIndex = 0 /\ loopInv n history (accepted ++ [index]) 0 checked1
  | None => loopInv n history accepted (S previousIndex) checked1
  end.
Proof.
  intros Hinv Hrun.
  assert (Hrej : forall j, In j checked ->
            In (Some j) (layout history accepted previousIndex) \/ In j history).
  { intros j Hj. destruct (inv_rejected _ _ _ _ _ Hinv j Hj) as [I | I]; [|now right].
    left. unfold layout. apply in_or_app. left. now apply in_map. }
  destruct (search_post _ _ _ _ _ _ _ Hrun (inv_checked _ _ _ _ _ Hinv) Hrej)
    as (Hok1 & Hrej1 & Hfound).
  assert (Hrej1' : forall j, In j checked1 -> In j accepted \/ In j history).
  { intros j Hj. destruct (Hrej1 j Hj) as [I | I]; [|now right].
    now apply layout_In in I. }
  destruct found as [index|].
  - destruct Hfound as (Hr & Hns & Hnh & Hlen).
    assert (previousIndex = 0).
    { destruct previousIndex; [reflexivity|]. exfalso. apply Hlen.
      apply (inv_full _ _ _ _ _ Hinv). lia. }
    split; [assumption|]. constructor.
    + apply NoDup_app; [apply Hinv | repeat constructor; intros [] |].
      intros a Ha [<- | []]. apply Hns.
      unfold layout. apply in_or_app. left. now apply in_map.
    + intros j Hj. apply in_app_or in Hj as [Hj | [<- | []]].
      * now apply (inv_fresh _ _ _ _ _ Hinv).
      * now split.
    + exact Hok1.
    + intros j Hj. destruct (Hrej1' j Hj); [left | now right].
      apply in_or_app. now left.
    + lia.
  - constructor; try apply Hinv; auto.
Qed.

(** What a finished outer loop returns. *)
Lemma selectLoop_post (fuel : nat) :
  forall remaining accepted previousIndex checked calls result calls',
    loopInv n history accepted previousIndex checked ->
    Trivia.selectLoop random fuel n remaining history
      (layout history accepted previousIndex) checked previousIndex calls =
      Trivia.Done (result, calls') ->
    exists accepted' previousIndex' checked',
      result = layout history accepted' previousIndex' /\
      loopInv n history accepted' previousIndex' checked' /\
      List.length accepted' + previousIndex' =
        List.length accepted + previousIndex + remaining.
Proof.
  induction remaining as [|r IH]; intros accepted pi checked calls result calls' Hinv Hrun.
  - simpl in Hrun. injection Hrun as <- <-.
    exists accepted, pi, checked. split; [reflexivity|]. split; [exact Hinv | lia].
  - simpl in Hrun.
    destruct (Trivia.search random fuel n (layout history accepted pi) history checked calls)
      as [[[found checked1] calls1]|] eqn:Hs; [|discriminate].
    pose proof (search_step _ _ _ _ _ _ _ _ Hinv Hs) as Hstep.
    destruct found as [index|].
    + destruct Hstep as [-> Hinv1]. rewrite layout_accept in Hrun.
      destruct (IH _ _ _ _ _ _ Hinv1 Hrun) as (acc' & pi' & checked' & E & Hinv' & Hl).
      exists acc', pi', checked'. split; [exact E|]. split; [exact Hinv'|].
      rewrite length_app in Hl. simpl in Hl. lia.
    + rewrite layout_reuse in Hrun.
      destruct (IH _ _ _ _ _ _ Hstep Hrun) as (acc' & pi' & checked' & E & Hinv' & Hl).
      exists acc', pi', checked'. split; [exact E|]. split; [exact Hinv' | lia].
Qed.

(** The outer loop ends, after at most [window] draws for each question,
    when every [window] consecutive draws show every index. *)
Lemma selectLoop_terminates (fuel window : nat) :
  fair random n window -> window < fuel ->
  forall remaining accepted previousIndex checked calls,
    loopInv n history accepted previousIndex checked ->
    exists result calls',
      Trivia.selectLoop random fuel n remaining history
        (layout history accepted previousIndex) checked previousIndex calls =
        Trivia.Done (result, calls') /\
      calls' <= calls + remaining * window.
Proof.
  intros Hfair Hfuel.
  induction remaining as [|r IH]; intros accepted pi checked calls Hinv.
  - exists (layout history accepted pi), calls. split; [reflexivity | lia].
  - simpl.
    destruct (search_terminates (layout history accepted pi) window fuel checked calls)
      as (found & checked1 & calls1 & Hrun & Hc).
    + exact Hfuel.
    + apply Hinv.
    + intros j Hj. right. now apply Hfair.
    + rewrite Hrun.
      pose proof (search_step _ _ _ _ _ _ _ _ Hinv Hrun) as Hstep.
      destruct found as [index|].
      * destruct Hstep as [-> Hinv1]. rewrite layout_accept.
        destruct (IH _ _ _ calls1 Hinv1) as (result & calls' & Hrun' & Hc').
        exists result, calls'. split; [exact Hrun' | lia].
      * rewrite layout_reuse.
        destruct (IH _ _ _ calls1 Hstep) as (result & calls' & Hrun' & Hc').
        exists result, calls'. split; [exact Hrun' | lia].
Qed.

End SelectQuestions.

Lemma nth_error_seq_firstn {A : Type} (l : list A) :
  forall k, k <= List.length l ->
    map (nth_error l) (seq 0 k) = map Some (firstn k l).
Proof.
  induction l as [|x l IH]; intros [|k] Hk; simpl in *; try reflexivity; try lia.
  f_equal. rewrite <- seq_shift, map_map. simpl. apply IH. lia.
Qed.

Lemma layout_defined (history accepted : list Z) (previousIndex : nat) :
  previousIndex <= List.length history ->
  layout history accepted previousIndex =
  map Some (accepted ++ firstn previousIndex history).
Proof.
  intros H. unfold layout. now rewrite nth_error_seq_firstn, map_app.
Qed.


(** Once entries of the history are taken over, every index of the corpus
    is among the accepted ones or in the history. *)
Lemma reuse_covers (n : nat) (history accepted checked : list Z) (previousIndex : nat) :
  loopInv n history accepted previousIndex checked ->
  0 < previousIndex ->
  incl (indices n) (accepted ++ history).
Proof.
  intros Hinv Hpi j Hj.
  assert (Hn : 0 < n) by (apply indices_In in Hj; lia).
  apply (inv_full _ _ _ _ _ Hinv) in Hpi.
  apply (checked_full n Hn) in Hpi; [|apply Hinv].
  apply in_or_app. apply (inv_rejected _ _ _ _ _ Hinv). now apply Hpi.
Qed.

(** The loop never reads past the end of the history. *)
Lemma reuse_bound (n : nat) (history accepted checked : list Z) (previousIndex : nat) :
  loopInv n history accepted previousIndex checked ->
  List.length accepted + previousIndex <= n ->
  previousIndex <= List.length history.
Proof.
  intros Hinv Hlen.
  destruct previousIndex as [|k]; [lia|].
  pose proof (reuse_covers _ _ _ _ _ Hinv ltac:(lia)) as Hc.
  apply (NoDup_incl_length (indices_NoDup n)) in Hc.
  rewrite indices_length, length_app in Hc. lia.
Qed.

Lemma loopInv_start (n : nat) (history : list Z) : loopInv n history [] 0 [].
Proof.
  constructor; simpl; try tauto; try lia.
  - constructor.
  - split; [constructor | intros j []].
Qed.

Section Selection.

Variable random : nat -> JS.draw.
Variables calls gameLength : nat.
Variable previousQuestions : list Z.
Variable questions : list string.
Hypothesis some_question : questions <> [].

Lemma corpus_not_empty : 0 < List.length questions.
Proof. destruct questions; [congruence | simpl; lia]. Qed.

Lemma clamped_gameLength :
  (if List.length questions <? gameLength then List.length questions else gameLength) =
  Nat.min gameLength (List.length questions).
Proof. destruct (Nat.ltb_spec (List.length questions) gameLength); lia. Qed.

(** The shape of the result of a finished run. *)
Lemma selectQuestions_post (fuel : nat) (result : Trivia.selection) :
  Trivia.selectQuestions random fuel calls gameLength previousQuestions (Some questions) =
    Trivia.Done result ->
  let n := List.length questions in
  let len := Nat.min gameLength n in
  let history := Trivia.trimHistory len n previousQuestions in
  exists accepted previousIndex checked,
    Trivia.selected result = Some (layout history accepted previousIndex) /\
    Trivia.newGameLength result = len /\
    Trivia.newPreviousQuestions result =
      map Some history ++ layout history accepted previousIndex /\
    loopInv n history accepted previousIndex checked /\
    List.length accepted + previousIndex = len.
Proof.
  intros Hrun n len history.
  unfold Trivia.selectQuestions in Hrun. rewrite clamped_gameLength in Hrun.
  fold n len history in Hrun.
  change (@nil (option Z)) with (layout history [] 0) in Hrun.
  destruct (Trivia.selectLoop random fuel n len history (layout history [] 0) [] 0 calls)
    as [[selected calls']|] eqn:Hloop; [|discriminate].
  injection Hrun as <-.
  destruct (selectLoop_post random n corpus_not_empty history fuel len [] 0 [] calls
              selected calls' (loopInv_start n history) Hloop)
    as (acc & pi & checked & -> & Hinv & Hl).
  exists acc, pi, checked. simpl in *. auto.
Qed.

(** A run ends when the random numbers keep showing every index. *)
Lemma selectQuestions_terminates (fuel window : nat) :
  fair random (List.length questions) window -> window < fuel ->
  exists result,
    Trivia.selectQuestions random fuel calls gameLength previousQuestions (Some questions) =
      Trivia.Done result /\
    Trivia.newCalls result <=
      calls + Nat.min gameLength (List.length questions) * window.
Proof.
  intros Hfair Hfuel.
  unfold Trivia.selectQuestions. rewrite clamped_gameLength.
  set (n := List.length questions) in *.
  set (len := Nat.min gameLength n).
  set (history := Trivia.trimHistory len n previousQuestions).
  destruct (selectLoop_terminates random n corpus_not_empty history fuel window Hfair Hfuel
              len [] 0 [] calls (loopInv_start n history))
    as (selected & calls' & Hrun & Hc).
  change (layout history [] 0) with (@nil (option Z)) in Hrun.
  rewrite Hrun. eexists. split; [reflexivity | exact Hc].
Qed.


(** C5 (as amended).  The loops of [selectQuestions] end when the random
    numbers keep showing every index: if every [window] consecutive draws
    contain all indices of the corpus, the selection is done after at most
    [window] draws for each of its [min gameLength n] questions. *)
Theorem selectQuestions_draws (fuel window : nat) :
  fair random (List.length questions) window -> window < fuel ->
  exists result,
    Trivia.selectQuestions random fuel calls gameLength previousQuestions (Some questions) =
      Trivia.Done result /\
    Trivia.newCalls result <=
      calls + Nat.min gameLength (List.length questions) * window.
Proof.
  intros Hfair Hfuel.
  destruct (selectQuestions_terminates fuel window Hfair Hfuel) as (result & Hrun & Hc).
  exists result. split; [exact Hrun | exact Hc].
Qed.

End Selection.



Lemma selectQuestions_draws_witness :
  exists result,
    Trivia.selectQuestions (roundRobin 5) 6 0 4 [0%Z; 1%Z; 2%Z; 3%Z]
      (Some fiveQuestions) = Trivia.Done result /\
    Trivia.newCalls result <= 20.
Proof.
  assert (Hq : fiveQuestions <> []) by discriminate.
  apply (selectQuestions_draws (roundRobin 5) 0 4
           [0%Z; 1%Z; 2%Z; 3%Z] fiveQuestions Hq 6 5).
  - apply roundRobin_fair. simpl. lia.
  - lia.
Defined.


Lemma stuck_search (fuel calls : nat) (checked : list Z) :
  checked = [] \/ checked = [0%Z] ->
  Trivia.search stuck fuel 2 [] [0%Z] checked calls = Trivia.OutOfFuel.
Proof.
  revert calls checked.
  induction fuel as [|fuel IH]; intros calls checked H; [reflexivity|].
  destruct H as [-> | ->]; cbn; apply IH; auto.
Qed.

(** C5, as stated, fails.  With two questions, of which the history holds
    the first, a source of random numbers that keeps returning 0 never
    lets the loop end, whatever the fuel; and a source that returns 0
    three times before it returns 1/2 lets it end after four draws, not
    within two. *)
Lemma selectQuestions_unbounded :
  (forall fuel,
     Trivia.selectQuestions stuck fuel 0 1 [0%Z] (Some twoQuestions) =
     Trivia.OutOfFuel) /\
  Trivia.selectQuestions (late 3) 2 0 1 [0%Z] (Some twoQuestions) =
    Trivia.OutOfFuel /\
  Trivia.selectQuestions (late 3) 4 0 1 [0%Z] (Some twoQuestions) =
    Trivia.Done
      {| Trivia.selected := Some [Some 1%Z];
         Trivia.newGameLength := 1;
         Trivia.newPreviousQuestions := [Some 0%Z; Some 1%Z];
         Trivia.newCalls := 4 |}.
Proof.
  split; [|split; vm_compute; reflexivity].
  intros fuel. unfold Trivia.selectQuestions. cbn.
  now rewrite stuck_search by auto.
Qed.

(** ** generateSynonyms *)

Lemma split_spec (sep : ascii) (s : string) :
  Forall (fun w => JS.includesChar sep w = false /\ charsIn w s) (JS.split sep s).
Proof.
  induction s as [|c s IH]; simpl.
  - repeat constructor. intros c H. exact H.
  - assert (Hup : forall w, charsIn w s -> charsIn w (String c s)).
    { intros w Hw d Hd. simpl. rewrite (Hw d Hd). apply orb_true_r. }
    destruct (Ascii.eqb c sep) eqn:E.
    + constructor.
      * split; [reflexivity | intros d Hd; discriminate].
      * eapply Forall_impl; [|exact IH]. intros w [H1 H2]. auto.
    + destruct (JS.split sep s) as [|w ws]; inversion IH; subst.
      * repeat constructor; simpl.
        -- now rewrite E.
        -- intros d Hd. simpl in Hd. rewrite orb_false_r in Hd.
           simpl. now rewrite Hd.
      * destruct H1 as [H1 H1']. constructor.
        -- split; [simpl; now rewrite E, H1|].
           intros d Hd. simpl in *.
           apply orb_true_iff in Hd as [Hd | Hd]; [now rewrite Hd|].
           rewrite (H1' d Hd). apply orb_true_r.
        -- eapply Forall_impl; [|exact H2]. intros v [Hv1 Hv2]. auto.
Qed.

Lemma split_no_sep (sep : ascii) (s : string) :
  JS.includesChar sep s = false -> JS.split sep s = [s].
Proof.
  induction s as [|c s IH]; simpl; [reflexivity|].
  intros H. apply orb_false_iff in H as [H1 H2].
  now rewrite H1, IH.
Qed.


Lemma trimStart_charsIn (s : string) : charsIn (JS.trimStart s) s.
Proof.
  induction s as [|c s IH]; intros d Hd; simpl in *; [exact Hd|].
  destruct (JS.isWhiteSpace c); [|exact Hd].
  rewrite (IH d Hd). apply orb_true_r.
Qed.

Lemma trimEnd_charsIn (s : string) : charsIn (JS.trimEnd s) s.
Proof.
  induction s as [|c s IH]; intros d Hd; simpl in *; [exact Hd|].
  destruct (JS.trimEnd s) as [|e t].
  - destruct (JS.isWhiteSpace c); [discriminate|].
    simpl in Hd. rewrite orb_false_r in Hd. now rewrite Hd.
  - simpl in Hd. apply orb_true_iff in Hd as [Hd | Hd]; [now rewrite Hd|].
    rewrite (IH d); [apply orb_true_r | exact Hd].
Qed.

Lemma trim_charsIn (s : string) : charsIn (JS.trim s) s.
Proof.
  intros d Hd. apply trimStart_charsIn. now apply trimEnd_charsIn.
Qed.

Lemma charsIn_absent (c : ascii) (w s : string) :
  charsIn w s -> JS.includesChar c s = false -> JS.includesChar c w = false.
Proof.
  intros H Hs. destruct (JS.includesChar c w) eqn:E; [|reflexivity].
  apply H in E. congruence.
Qed.

Lemma indexOf_absent (x : string) (l : list string) :
  (JS.indexOf x l =? -1)%Z = true <-> ~ In x l.
Proof. apply indexOfBy_absent. intros a b. apply String.eqb_eq. Qed.

Lemma indexOf_present (x : string) (l : list string) :
  (JS.indexOf x l =? -1)%Z = false <-> In x l.
Proof.
  destruct (in_dec string_dec x l) as [I | I].
  - split; [auto|]. intros _.
    destruct (JS.indexOf x l =? -1)%Z eqn:E; [|reflexivity].
    apply indexOf_absent in E. tauto.
  - apply indexOf_absent in I as E. rewrite E. split; [discriminate | tauto].
Qed.

Lemma removeAt_In {A : Type} (n : nat) (l : list A) (x : A) :
  In x (JS.removeAt n l) -> In x l.
Proof.
  revert n. induction l as [|y l IH]; intros [|n] H; simpl in *; auto.
  destruct H as [H | H]; [auto|]. right. now apply IH with n.
Qed.

Lemma groupInv_nil (k : string) : groupInv k [].
Proof. repeat split; auto. intros w []. Qed.

Lemma groupInv_removeAt (k : string) (g : list string) (pos : nat) :
  groupInv k g ->
  (pos = 0 -> List.length g <= 1) ->
  groupInv k (JS.removeAt pos g).
Proof.
  intros (Ha & Hb & Hc) Hpos.
  destruct Ha as [-> | (rest & -> & Hn)].
  - destruct pos; apply groupInv_nil.
  - destruct pos as [|p].
    + specialize (Hpos eq_refl). destruct rest; [|simpl in Hpos; lia].
      apply groupInv_nil.
    + simpl. split; [|split].
      * right. exists (JS.removeAt p rest). split; [reflexivity|].
        intros F. apply Hn. now apply removeAt_In with p.
      * intros w [<- | Hw]; [now left|].
        apply Hb. right. now apply removeAt_In with p.
      * intros Hk. destruct (Hc Hk) as [F | F]; [discriminate|].
        injection F as ->. destruct p; now right.
Qed.

(** [g.splice(g.indexOf(w), 1)] keeps the invariant, when [w] is the value
    of the group only if that value is a word. *)
Lemma groupInv_splice (k w : string) (g : list string) :
  groupInv k g ->
  (w = k -> word k) ->
  groupInv k (JS.splice1 (JS.indexOf w g) g).
Proof.
  intros Hg Hw. unfold JS.splice1. apply groupInv_removeAt; [exact Hg|].
  intros Hpos. destruct Hg as (Ha & Hb & Hc).
  destruct Ha as [-> | (rest & -> & Hn)]; [simpl; lia|].
  destruct (string_dec w k) as [E | N].
  - destruct (Hc (Hw E)) as [F | F]; [discriminate|].
    injection F as ->. simpl. lia.
  - unfold JS.indexOf in Hpos. cbn [JS.indexOfBy] in Hpos.
    replace (k =? w)%string with false in Hpos
      by (symmetry; apply String.eqb_neq; congruence).
    pose proof (indexOfBy_ge String.eqb w rest) as G.
    cbn [List.length] in *.
    destruct (Z.eqb_spec (JS.indexOfBy String.eqb w rest) (-1)) as [E1 | E1].
    + change (-1 <? 0)%Z with true in Hpos. cbv iota in Hpos. lia.
    + destruct (Z.ltb_spec (JS.indexOfBy String.eqb w rest + 1) 0); lia.
Qed.

Lemma lookup_update_same (k : string) (v : list string) (m : Utils.store) :
  Utils.lookup k (Utils.update k v m) = Some v.
Proof.
  induction m as [|[k' w] m IH]; simpl.
  - now rewrite String.eqb_refl.
  - destruct (k' =? k)%string eqn:E; simpl; now rewrite E.
Qed.

Lemma lookup_update_other (k k' : string) (v : list string) (m : Utils.store) :
  k' <> k ->
  Utils.lookup k' (Utils.update k v m) = Utils.lookup k' m.
Proof.
  intros N. induction m as [|[k0 w] m IH]; simpl.
  - replace (k =? k')%string with false
      by (symmetry; apply String.eqb_neq; congruence).
    reflexivity.
  - destruct (k0 =? k)%string eqn:E; simpl.
    + apply String.eqb_eq in E. subst k0.
      replace (k =? k')%string with false
        by (symmetry; apply String.eqb_neq; congruence).
      reflexivity.
    + destruct (k0 =? k')%string; [reflexivity | exact IH].
Qed.

Lemma storeInv_update (k : string) (g : list string) (m : Utils.store) :
  storeInv m -> groupInv k g -> storeInv (Utils.update k g m).
Proof.
  intros Hm Hg k' g' H.
  destruct (string_dec k' k) as [-> | N].
  - rewrite lookup_update_same in H. now injection H as <-.
  - rewrite lookup_update_other in H by exact N. now apply Hm.
Qed.

(** One word of the copy of the synonyms of [kv] against the entry [ko]. *)
Lemma removeShared_inv (ko kv result : string) (otherClone other valueSyn : list string) :
  ko <> kv ->
  groupInv ko otherClone ->
  result = kv \/ word result ->
  groupInv ko other -> groupInv kv valueSyn ->
  groupInv ko (fst (Utils.removeShared otherClone (other, valueSyn) result)) /\
  groupInv kv (snd (Utils.removeShared otherClone (other, valueSyn) result)).
Proof.
  intros N Hclone Hres Ho Hv. unfold Utils.removeShared.
  destruct (JS.indexOf result otherClone =? -1)%Z eqn:E; simpl; [now split|].
  apply indexOf_present in E.
  destruct Hclone as (_ & Hb & _). specialize (Hb result E).
  assert (Hko : result = ko -> word ko).
  { intros ->. destruct Hres as [F | F]; [congruence | exact F]. }
  assert (Hkv : result = kv -> word kv).
  { intros ->. destruct Hb as [F | F]; [congruence | exact F]. }
  split.
  - now apply groupInv_splice.
  - destruct (JS.indexOf result valueSyn =? -1)%Z; simpl; [exact Hv|].
    now apply groupInv_splice.
Qed.

Lemma removeShared_fold_inv (ko kv : string) (otherClone : list string) :
  ko <> kv ->
  groupInv ko otherClone ->
  forall valueClone arrays,
    Forall (fun r => r = kv \/ word r) valueClone ->
    groupInv ko (fst arrays) -> groupInv kv (snd arrays) ->
    groupInv ko (fst (fold_left (Utils.removeShared otherClone) valueClone arrays)) /\
    groupInv kv (snd (fold_left (Utils.removeShared otherClone) valueClone arrays)).
Proof.
  intros N Hclone.
  induction valueClone as [|r l IH]; intros [other valueSyn] Hall Ho Hv; simpl.
  - now split.
  - inversion Hall; subst.
    destruct (removeShared_inv ko kv r otherClone other valueSyn N Hclone H1 Ho Hv)
      as [H1' H2'].
    apply IH; assumption.
Qed.

Lemma removeFromKey_inv (value key : string) (valueClone : list string) (m : Utils.store) :
  storeInv m ->
  Forall (fun r => r = value \/ word r) valueClone ->
  storeInv (Utils.removeFromKey value valueClone m key).
Proof.
  intros Hm Hall. unfold Utils.removeFromKey.
  destruct (key =? value)%string eqn:E; simpl; [exact Hm|].
  apply String.eqb_neq in E.
  destruct (Utils.lookup key m) as [other|] eqn:Lo; [|exact Hm].
  destruct (Utils.lookup value m) as [valueSyn|] eqn:Lv; [|exact Hm].
  pose proof (removeShared_fold_inv key value other E (Hm _ _ Lo) valueClone
                (other, valueSyn) Hall (Hm _ _ Lo) (Hm _ _ Lv)) as [H1 H2].
  destruct (fold_left (Utils.removeShared other) valueClone (other, valueSyn))
    as [other' valueSyn'].
  apply storeInv_update; [apply storeInv_update|]; assumption.
Qed.

Lemma removeForValue_inv (m : Utils.store) (value : string) :
  storeInv m -> storeInv (Utils.removeForValue m value).
Proof.
  intros Hm. unfold Utils.removeForValue.
  destruct (Utils.lookup value m) as [valueSynonyms|] eqn:L; [|exact Hm].
  assert (Hall : Forall (fun r => r = value \/ word r) valueSynonyms).
  { apply Forall_forall. apply (Hm _ _ L). }
  generalize (Utils.forInKeys m). intros keys.
  clear L. revert m Hm.
  induction keys as [|key keys IH]; intros m Hm; simpl; [exact Hm|].
  apply IH. now apply removeFromKey_inv.
Qed.

Lemma removeDuplicates_inv (values : list string) (m : Utils.store) :
  storeInv m -> storeInv (Utils.removeDuplicates values m).
Proof.
  unfold Utils.removeDuplicates. revert m.
  induction values as [|v values IH]; intros m Hm; simpl; [exact Hm|].
  apply IH. now apply removeForValue_inv.
Qed.

Lemma wordsOf_In (k w : string) :
  In w (Utils.wordsOf k) ->
  JS.includesChar Utils.SPACE w = false /\ charsIn w k.
Proof.
  unfold Utils.wordsOf, Utils.dropIgnorable. intros H.
  apply filter_In in H as [H _].
  pose proof (split_spec Utils.SPACE k) as S.
  rewrite Forall_forall in S. now apply S.
Qed.

Lemma wordsOf_words (k : string) :
  JS.includesChar Utils.SEPARATOR k = false -> Forall word (Utils.wordsOf k).
Proof.
  intros Hk. apply Forall_forall. intros w Hw.
  apply wordsOf_In in Hw as [H1 H2]. split; [exact H1|].
  now apply charsIn_absent with k.
Qed.

Lemma wordsOf_of_word (k : string) :
  JS.includesChar Utils.SPACE k = false ->
  Utils.wordsOf k = [k] \/ Utils.wordsOf k = [].
Proof.
  intros Hk. unfold Utils.wordsOf, Utils.dropIgnorable.
  rewrite (split_no_sep _ _ Hk). simpl.
  destruct (negb _); auto.
Qed.

Lemma plainSynonyms_inv (k : string) :
  JS.includesChar Utils.SEPARATOR k = false -> groupInv k (Utils.plainSynonyms k).
Proof.
  intros Hk. unfold Utils.plainSynonyms.
  pose proof (wordsOf_words k Hk) as Hw. rewrite Forall_forall in Hw.
  destruct (JS.indexOf k (Utils.wordsOf k) =? -1)%Z eqn:E.
  - apply indexOf_absent in E. split; [|split].
    + right. now exists (Utils.wordsOf k).
    + intros w [<- | H]; [now left | right; now apply Hw].
    + intros [Hs _]. right.
      destruct (wordsOf_of_word k Hs) as [F | F]; rewrite F in *; [|reflexivity].
      exfalso. apply E. now left.
  - apply indexOf_present in E.
    assert (Hs : JS.includesChar Utils.SPACE k = false) by (now apply wordsOf_In in E).
    destruct (wordsOf_of_word k Hs) as [F | F]; rewrite F in *; [|destruct E].
    split; [|split].
    + right. exists []. split; [reflexivity | intros []].
    + intros w [<- | []]. now left.
    + intros _. now right.
Qed.

Lemma pushNew_shape (k : string) :
  forall tokens allValues,
    Forall word tokens ->
    (exists rest, allValues = k :: rest /\ Forall word rest) ->
    exists rest,
      fold_left
        (fun allValues r =>
           if (JS.indexOf r allValues =? -1)%Z then allValues ++ [r] else allValues)
        tokens allValues = k :: rest /\
      Forall word rest.
Proof.
  induction tokens as [|r tokens IH]; intros allValues Hw Hall; simpl; [exact Hall|].
  inversion Hw; subst. apply IH; [assumption|].
  destruct (JS.indexOf r allValues =? -1)%Z; [|exact Hall].
  destruct Hall as (rest & -> & Hrest).
  exists (rest ++ [r]). split; [reflexivity|].
  apply Forall_app. split; [exact Hrest | now constructor].
Qed.

Lemma separatedSynonyms_shape (k : string) :
  exists rest, Utils.separatedSynonyms k = k :: rest /\ Forall word rest.
Proof.
  unfold Utils.separatedSynonyms.
  pose proof (split_spec Utils.SEPARATOR k) as S.
  assert (H0 : exists rest, [k] = k :: rest /\ Forall word rest)
    by (exists []; split; [reflexivity | constructor]).
  revert S H0. generalize (JS.split Utils.SEPARATOR k). generalize [k].
  intros allValues segs. revert allValues.
  induction segs as [|seg segs IH]; intros allValues S Hall; simpl; [exact Hall|].
  inversion S as [|? ? [Hseg _] S']; subst.
  apply IH; [exact S'|].
  apply pushNew_shape; [|exact Hall].
  apply wordsOf_words. apply charsIn_absent with seg; [apply trim_charsIn | exact Hseg].
Qed.

Lemma separatedSynonyms_inv (k : string) :
  JS.includesChar Utils.SEPARATOR k = true -> groupInv k (Utils.separatedSynonyms k).
Proof.
  intros Hk. destruct (separatedSynonyms_shape k) as (rest & -> & Hrest).
  rewrite Forall_forall in Hrest.
  assert (Hnw : ~ word k) by (intros [_ F]; congruence).
  split; [|split].
  - right. exists rest. split; [reflexivity|]. intros F. now apply Hnw, Hrest.
  - intros w [<- | H]; [now left | right; now apply Hrest].
  - intros F. now destruct Hnw.
Qed.

Lemma synonymsFor_inv (k : string) : groupInv k (synonymsFor k).
Proof.
  unfold synonymsFor.
  destruct (JS.includesChar Utils.SEPARATOR k) eqn:E; simpl.
  - now apply separatedSynonyms_inv.
  - now apply plainSynonyms_inv.
Qed.







(** C1 fails on the sources.  For the two answers Duran and Duran Duran
    the word Duran is removed once from the synonyms of each answer; the
    second answer keeps its second copy, and the first answer, left
    without synonyms, is returned as itself: both returned groups hold
    Duran.  And for two answers that begin with a space the pass that
    removes the shared words looks their synonyms up under the untrimmed
    value, finds none and removes nothing: both returned groups hold
    New. *)
Theorem generateSynonyms_shared_word :
  (Utils.generateSynonyms ["Duran"; "Duran Duran"] =
     Some ["Duran"; "Duran Duran|Duran"] /\
   In "Duran" (Utils.getSynonyms (Some "Duran")) /\
   In "Duran" (Utils.getSynonyms (Some "Duran Duran|Duran"))) /\
  (Utils.generateSynonyms [" New York"; " New Jersey"] =
     Some ["New York|New|York"; "New Jersey|New|Jersey"] /\
   In "New" (Utils.getSynonyms (Some "New York|New|York")) /\
   In "New" (Utils.getSynonyms (Some "New Jersey|New|Jersey"))).
Proof.
  split; (split; [vm_compute; reflexivity|]); split; vm_compute; auto.
Qed.

(** Three answers that share a word lose it in all three groups. *)
Example generateSynonyms_three_way :
  Utils.generateSynonyms ["Lake Erie"; "Lake Huron"; "Lake Ontario"] =
    Some ["Lake Erie|Erie"; "Lake Huron|Huron"; "Lake Ontario|Ontario"].
Proof. vm_compute. reflexivity. Qed.

(** ** The session *)

Section Session.

Variable random : nat -> JS.draw.

(** An unresolved turn counts one more fallback and answers by the count. *)
Lemma unknownIntent_unresolved (req : Trivia.request) (calls : nat) (d : Trivia.data) :
  unresolved d req ->
  let count := (match Trivia.fallbackCount d with None => 0 | Some c => c end + 1)%Z in
  Trivia.unknownIntent random req false calls d =
    (Trivia.setFallbackCount (Some count) d,
     Trivia.handleNonDictionaryInput count, calls).
Proof.
  intros [Hm Hd]. unfold Trivia.unknownIntent, Trivia.unknownIntentWith.
  cbn [negb Trivia.selectedAnswers Trivia.setFallbackCount].
  rewrite Hm. destruct (Trivia.dictionary req); [congruence | reflexivity | reflexivity].
Qed.

(** Three unresolved turns in a row, from a count of 0: a reprompt, the
    offer to quit, the end of the session. *)
Lemma three_unresolved_turns (r1 r2 r3 : Trivia.request) (calls : nat) (d : Trivia.data) :
  Trivia.fallbackCount d = Some 0%Z ->
  unresolved d r1 -> unresolved d r2 -> unresolved d r3 ->
  fst (Trivia.converse random
         [(Trivia.UNKNOWN_INTENT, r1); (Trivia.UNKNOWN_INTENT, r2);
          (Trivia.UNKNOWN_INTENT, r3)] calls d) =
  [Trivia.Ask Trivia.RAPID_REPROMPTS; Trivia.Ask Trivia.FALLBACK_PROMPT_1;
   Trivia.Tell Trivia.FALLBACK_PROMPT_2].
Proof.
  intros H0 U1 U2 U3.
  cbn [Trivia.converse Trivia.handleRequest].
  rewrite unknownIntent_unresolved by exact U1. rewrite H0.
  change (Trivia.handleNonDictionaryInput (0 + 1))
    with (Trivia.Ask Trivia.RAPID_REPROMPTS).
  cbv iota beta.
  rewrite unknownIntent_unresolved by exact U2.
  change (Trivia.handleNonDictionaryInput _)
    with (Trivia.Ask Trivia.FALLBACK_PROMPT_1).
  cbv iota beta.
  rewrite unknownIntent_unresolved by exact U3.
  reflexivity.
Qed.

(** On the way to a further question the count is set back to 0. *)
Lemma nextQuestion_resets (calls calls' : nat) (d d' : Trivia.data) (p : Trivia.prompt) :
  Trivia.currentQuestion d <> (Trivia.gameLength d - 1)%Z ->
  Trivia.nextQuestion random calls d = (d', Trivia.Ask p, calls') ->
  Trivia.fallbackCount d' = Some 0%Z.
Proof.
  intros Hq. unfold Trivia.nextQuestion.
  apply Z.eqb_neq in Hq. rewrite Hq.
  destruct (JS.get (Trivia.sessionAnswers d) (Trivia.currentQuestion d + 1))
    as [[answers|]|]; try discriminate.
  destruct (Trivia.presentAnswers random calls answers) as [[c sel] k].
  destruct sel as [sel|]; [|discriminate].
  intros H. injection H as <- _ _. reflexivity.
Qed.

(** After the last question of the round the count is left as it is. *)
Lemma nextQuestion_last (calls : nat) (d : Trivia.data) :
  Trivia.currentQuestion d = (Trivia.gameLength d - 1)%Z ->
  Trivia.nextQuestion random calls d =
    (d, Trivia.Ask Trivia.PLAY_AGAIN_QUESTION_PROMPTS, calls).
Proof.
  intros Hq. unfold Trivia.nextQuestion.
  apply Z.eqb_eq in Hq. now rewrite Hq.
Qed.

(** On the last question no handler of a turn lowers the count: a turn
    that answers the question leaves it, a turn through [unknownIntent]
    raises it. *)
Lemma nextQuestion_last_count (calls : nat) (d : Trivia.data) :
  Trivia.currentQuestion d = (Trivia.gameLength d - 1)%Z ->
  Trivia.fallbackCount (fst (fst (Trivia.nextQuestion random calls d))) =
  Trivia.fallbackCount d.
Proof. intros H. now rewrite nextQuestion_last. Qed.

Lemma unknownIntentWith_last_count
    (handler : JS.value -> nat -> Trivia.data -> Trivia.data * Trivia.response * nat)
    (req : Trivia.request) (other : bool) (calls : nat) (d : Trivia.data) (c : Z) :
  Trivia.currentQuestion d = (Trivia.gameLength d - 1)%Z ->
  Trivia.fallbackCount d = Some c ->
  (forall v k d1,
     Trivia.currentQuestion d1 = (Trivia.gameLength d1 - 1)%Z ->
     Trivia.fallbackCount d1 = Some (c + 1)%Z ->
     exists c', Trivia.fallbackCount (fst (fst (handler v k d1))) = Some c' /\
                (c + 1 <= c')%Z) ->
  exists c',
    Trivia.fallbackCount
      (fst (fst (Trivia.unknownIntentWith random handler req other calls d))) = Some c' /\
    (c + 1 <= c')%Z.
Proof.
  intros Hq Hc Hh. unfold Trivia.unknownIntentWith. rewrite Hc.
  destruct (if negb other then _ else None) as [i|].
  - apply Hh; [exact Hq | reflexivity].
  - destruct (Trivia.dictionary req).
    + unfold Trivia.handleDictionaryInput.
      rewrite nextQuestion_last_count by exact Hq.
      exists (c + 1)%Z. split; [reflexivity | lia].
    + exists (c + 1)%Z. split; [reflexivity | lia].
    + exists (c + 1)%Z. split; [reflexivity | lia].
Qed.

Lemma valueIntent_last_count (req : Trivia.request) (last middle : bool)
    (choice : JS.value) (calls : nat) (d : Trivia.data) (c : Z) :
  Trivia.currentQuestion d = (Trivia.gameLength d - 1)%Z ->
  Trivia.fallbackCount d = Some c ->
  exists c',
    Trivia.fallbackCount
      (fst (fst (Trivia.valueIntent random req last middle choice calls d))) = Some c' /\
    (c <= c')%Z.
Proof.
  intros Hq Hc. unfold Trivia.valueIntent.
  destruct (JS.truthy (Trivia.isValidAnswer _ _)).
  - exists c. split; [|lia].
    destruct (Trivia.optZ_eqb _ _);
      (rewrite nextQuestion_last_count; [exact Hc | exact Hq]).
  - destruct (unknownIntentWith_last_count
                (fun _ calls d => (d, Trivia.Throws, calls)) req true calls d c Hq Hc)
      as (c' & E & L).
    + intros v k d1 _ H1. exists (c + 1)%Z. split; [exact H1 | lia].
    + exists c'. split; [exact E | lia].
Qed.

Lemma handleRequest_last_count (i : Trivia.intent) (req : Trivia.request)
    (calls : nat) (d : Trivia.data) (c : Z) :
  Trivia.currentQuestion d = (Trivia.gameLength d - 1)%Z ->
  Trivia.fallbackCount d = Some c ->
  exists c',
    Trivia.fallbackCount (fst (fst (Trivia.handleRequest random i req calls d))) = Some c' /\
    (c <= c')%Z.
Proof.
  intros Hq Hc. destruct i; cbn [Trivia.handleRequest];
    try (now apply valueIntent_last_count).
  unfold Trivia.unknownIntent.
  destruct (unknownIntentWith_last_count
              (Trivia.valueIntent random req false false) req false calls d c Hq Hc)
    as (c' & E & L).
  - intros v k d1 Hq1 H1. now apply valueIntent_last_count.
  - exists c'. split; [exact E | lia].
Qed.

(** C2 fails on the sources.  On the last question of the round an
    answered turn does not set the count of fallbacks back: after one
    unknown input and the answer 2, the next unknown input is met with the
    offer to quit and the one after it ends the session; and an answer
    that [unknownIntent] itself matches leaves a count of 1, so that the
    second unknown input after it ends the session. *)
Theorem fallbackCount_kept_after_last_answer :
  fst (Trivia.converse random
         [(Trivia.UNKNOWN_INTENT, said "blah");
          (Trivia.VALUE_INTENT, chose "2");
          (Trivia.UNKNOWN_INTENT, said "blah");
          (Trivia.UNKNOWN_INTENT, said "blah")] 0 lastQuestion) =
    [Trivia.Ask Trivia.RAPID_REPROMPTS;
     Trivia.Ask Trivia.PLAY_AGAIN_QUESTION_PROMPTS;
     Trivia.Ask Trivia.FALLBACK_PROMPT_1;
     Trivia.Tell Trivia.FALLBACK_PROMPT_2] /\
  Trivia.fallbackCount
    (fst (fst (Trivia.handleRequest random Trivia.UNKNOWN_INTENT (said "pariss")
                 0 lastQuestion))) = Some 1%Z /\
  fst (Trivia.converse random
         [(Trivia.UNKNOWN_INTENT, said "pariss");
          (Trivia.UNKNOWN_INTENT, said "blah");
          (Trivia.UNKNOWN_INTENT, said "blah")] 0 lastQuestion) =
    [Trivia.Ask Trivia.PLAY_AGAIN_QUESTION_PROMPTS;
     Trivia.Ask Trivia.FALLBACK_PROMPT_1;
     Trivia.Tell Trivia.FALLBACK_PROMPT_2].
Proof. repeat split; vm_compute; reflexivity. Qed.

End Session.

(** The same answer one question earlier sets the count back to 0. *)
Example fallbackCount_reset_before_last :
  Trivia.fallbackCount
    (snd (Trivia.converse (roundRobin 4)
            [(Trivia.UNKNOWN_INTENT, said "blah");
             (Trivia.VALUE_INTENT, chose "2")] 0 thirdQuestion)) = Some 0%Z.
Proof. vm_compute. reflexivity. Qed.

(** * Further properties of the code *)

(** ** Characters and strings *)

Lemma lowerChar_idem (c : ascii) : JS.lowerChar (JS.lowerChar c) = JS.lowerChar c.
Proof. destruct c as [[] [] [] [] [] [] [] []]; vm_compute; reflexivity. Qed.

Lemma lowerChar_space (c : ascii) : JS.isWhiteSpace (JS.lowerChar c) = JS.isWhiteSpace c.
Proof. destruct c as [[] [] [] [] [] [] [] []]; vm_compute; reflexivity. Qed.

Lemma toLowerCase_idem (s : string) :
  JS.toLowerCase (JS.toLowerCase s) = JS.toLowerCase s.
Proof.
  induction s as [|c s IH]; cbn [JS.toLowerCase]; [reflexivity|].
  now rewrite lowerChar_idem, IH.
Qed.

Lemma toLowerCase_empty (s : string) : JS.toLowerCase s = "" -> s = "".
Proof. destruct s; [reflexivity | discriminate]. Qed.

Lemma trimStart_lower (s : string) :
  JS.trimStart (JS.toLowerCase s) = JS.toLowerCase (JS.trimStart s).
Proof.
  induction s as [|c s IH]; cbn [JS.toLowerCase JS.trimStart]; [reflexivity|].
  rewrite lowerChar_space. destruct (JS.isWhiteSpace c); [exact IH | reflexivity].
Qed.

Lemma trimEnd_lower (s : string) :
  JS.trimEnd (JS.toLowerCase s) = JS.toLowerCase (JS.trimEnd s).
Proof.
  induction s as [|c s IH]; cbn [JS.toLowerCase JS.trimEnd]; [reflexivity|].
  rewrite IH, lowerChar_space.
  destruct (JS.trimEnd s); cbn [JS.toLowerCase]; [|reflexivity].
  destruct (JS.isWhiteSpace c); reflexivity.
Qed.

Lemma trim_lower (s : string) : JS.trim (JS.toLowerCase s) = JS.toLowerCase (JS.trim s).
Proof. unfold JS.trim. now rewrite trimStart_lower, trimEnd_lower. Qed.

Lemma trimEnd_idem (s : string) : JS.trimEnd (JS.trimEnd s) = JS.trimEnd s.
Proof.
  induction s as [|c s IH]; cbn [JS.trimEnd]; [reflexivity|].
  destruct (JS.trimEnd s) as [|e u] eqn:E.
  - destruct (JS.isWhiteSpace c) eqn:W; cbn [JS.trimEnd]; [reflexivity|].
    now rewrite W.
  - cbn [JS.trimEnd] in *. now rewrite IH.
Qed.

Lemma trimStart_head (s : string) :
  JS.trimStart s = "" \/
  exists c r, JS.trimStart s = String c r /\ JS.isWhiteSpace c = false.
Proof.
  induction s as [|c s IH]; cbn [JS.trimStart]; [now left|].
  destruct (JS.isWhiteSpace c) eqn:W; [exact IH|].
  right. now exists c, s.
Qed.

Lemma trimEnd_head (c : ascii) (r : string) :
  JS.isWhiteSpace c = false -> exists r', JS.trimEnd (String c r) = String c r'.
Proof.
  intros W. cbn [JS.trimEnd]. destruct (JS.trimEnd r) as [|e u].
  - rewrite W. now exists "".
  - now exists (String e u).
Qed.

Lemma trim_idem (s : string) : JS.trim (JS.trim s) = JS.trim s.
Proof.
  unfold JS.trim.
  destruct (trimStart_head s) as [E | (c & r & E & W)]; rewrite E.
  - reflexivity.
  - destruct (trimEnd_head c r W) as (r' & E').
    rewrite E'. cbn [JS.trimStart]. rewrite W. rewrite <- E'. apply trimEnd_idem.
Qed.

Lemma removeChars_clean (set s : string) (c : ascii) :
  JS.includesChar c set = true -> JS.includesChar c (JS.removeChars set s) = false.
Proof.
  intros Hc. induction s as [|d s IH]; cbn [JS.removeChars]; [reflexivity|].
  destruct (JS.includesChar d set) eqn:E; [exact IH|].
  cbn [JS.includesChar]. rewrite IH, orb_false_r.
  destruct (Ascii.eqb_spec d c) as [->|]; [congruence | reflexivity].
Qed.

Lemma removeChars_charsIn (set s : string) : charsIn (JS.removeChars set s) s.
Proof.
  induction s as [|d s IH]; cbn [JS.removeChars]; intros c Hc; [exact Hc|].
  cbn [JS.includesChar].
  destruct (JS.includesChar d set).
  - rewrite (IH c Hc). apply orb_true_r.
  - cbn [JS.includesChar] in Hc. apply orb_true_iff in Hc as [Hc | Hc].
    + now rewrite Hc.
    + rewrite (IH c Hc). apply orb_true_r.
Qed.

Lemma removeChars_id (set s : string) :
  (forall c, JS.includesChar c set = true -> JS.includesChar c s = false) ->
  JS.removeChars set s = s.
Proof.
  induction s as [|d s IH]; intros H; cbn [JS.removeChars]; [reflexivity|].
  destruct (JS.includesChar d set) eqn:E.
  - apply H in E. cbn [JS.includesChar] in E. now rewrite Ascii.eqb_refl in E.
  - f_equal. apply IH. intros c Hc. specialize (H c Hc).
    cbn [JS.includesChar] in H. now apply orb_false_iff in H.
Qed.

Lemma removeChars_length (set s : string) :
  String.length (JS.removeChars set s) <= String.length s.
Proof.
  induction s as [|d s IH]; cbn [JS.removeChars]; [reflexivity|].
  destruct (JS.includesChar d set); cbn [String.length]; lia.
Qed.

Lemma includesChar_app (c : ascii) (s t : string) :
  JS.includesChar c (s ++ t) = JS.includesChar c s || JS.includesChar c t.
Proof.
  induction s as [|d s IH]; cbn [append JS.includesChar]; [reflexivity|].
  now rewrite IH, orb_assoc.
Qed.

(** ** functions/utils.js, continued *)

Lemma floorTimes_range (r : JS.draw) (k : Z) :
  (0 < k)%Z -> (0 <= JS.floorTimes r k < k)%Z.
Proof.
  intros Hk. unfold JS.floorTimes.
  assert (Hd : (0 < Z.of_nat (JS.numer r + JS.gap r + 1))%Z) by lia.
  split.
  - apply Z.div_pos; [|exact Hd]. apply Z.mul_nonneg_nonneg; lia.
  - apply Z.div_lt_upper_bound; [exact Hd|].
    apply Z.mul_lt_mono_pos_r; [exact Hk|]. lia.
Qed.



Lemma getRandomItem_spec {A : Type} (array : list A) (r : JS.draw) :
  match Utils.getRandomItem array r with
  | Some x => In x array
  | None => array = []
  end.
Proof.
  unfold Utils.getRandomItem, JS.get.
  destruct array as [|a array].
  - cbn [List.length]. destruct (JS.floorTimes r (Z.of_nat 0) <? 0)%Z; [reflexivity|].
    now destruct (Z.to_nat (JS.floorTimes r (Z.of_nat 0))).
  - pose proof (floorTimes_range r (Z.of_nat (List.length (a :: array)))) as H.
    cbn [List.length] in *.
    assert (H' : (0 <= JS.floorTimes r (Z.of_nat (S (List.length array)))
                  < Z.of_nat (S (List.length array)))%Z) by (apply H; lia).
    destruct (Z.ltb_spec (JS.floorTimes r (Z.of_nat (S (List.length array)))) 0); [lia|].
    destruct (nth_error (a :: array)
                (Z.to_nat (JS.floorTimes r (Z.of_nat (S (List.length array)))))) eqn:E.
    + eapply nth_error_In. exact E.
    + apply nth_error_None in E. cbn [List.length] in E. lia.
Qed.

(** X2.  [getRandomItem(array)] returns an element of the array; it returns
    [undefined] only for the empty array. *)
Theorem getRandomItem_member {A : Type} (array : list A) (r : JS.draw) :
  match Utils.getRandomItem array r with
  | Some x => In x array
  | None => array = []
  end.
Proof. apply getRandomItem_spec. Qed.

(** X3.  [removePunctuationAndSpaces] leaves none of the characters of its
    class and no space in its result, never makes the value longer, and
    changes nothing when applied a second time. *)
Theorem removePunctuationAndSpaces_clean (value : string) :
  (forall c, JS.includesChar c (Utils.punctuation ++ " ") = true ->
             JS.includesChar c (Utils.removePunctuationAndSpaces value) = false) /\
  String.length (Utils.removePunctuationAndSpaces value) <= String.length value /\
  Utils.removePunctuationAndSpaces (Utils.removePunctuationAndSpaces value) =
  Utils.removePunctuationAndSpaces value.
Proof.
  unfold Utils.removePunctuationAndSpaces.
  assert (Hclean : forall c, JS.includesChar c (Utils.punctuation ++ " ") = true ->
            JS.includesChar c
              (JS.removeChars " " (JS.removeChars Utils.punctuation value)) = false).
  { intros c Hc. rewrite includesChar_app in Hc. apply orb_true_iff in Hc as [Hc | Hc].
    - eapply charsIn_absent; [apply removeChars_charsIn|].
      now apply removeChars_clean.
    - now apply removeChars_clean. }
  split; [exact Hclean|]. split.
  - etransitivity; [apply removeChars_length|]. apply removeChars_length.
  - rewrite (removeChars_id Utils.punctuation).
    + apply removeChars_id. intros c Hc. apply Hclean.
      rewrite includesChar_app, Hc. apply orb_true_r.
    + intros c Hc. apply Hclean. rewrite includesChar_app, Hc. reflexivity.
Qed.

Lemma levenshtein_refl (s : string) : Utils.levenshtein s s = 0.
Proof.
  induction s as [|a s IH]; [reflexivity|].
  rewrite levenshtein_step, IH, Ascii.eqb_refl. lia.
Qed.

Lemma levenshtein_length (s t : string) :
  String.length s <= String.length t + Utils.levenshtein s t /\
  String.length t <= String.length s + Utils.levenshtein s t.
Proof.
  revert t. induction s as [|a s IHs]; intro t.
  - cbn [Utils.levenshtein String.length]. lia.
  - induction t as [|b t IHt].
    + rewrite levenshtein_empty_r. cbn [String.length]. lia.
    + rewrite levenshtein_step.
      pose proof (IHs (String b t)) as H1. pose proof (IHs t) as H2.
      cbn [String.length] in *. lia.
Qed.

(** X4.  Two values that are the same after lower-casing and the removal
    of punctuation and spaces match fuzzily exactly when more than three
    characters are left of them. *)
Theorem fuzzyMatch_same (value1 value2 : string) :
  Utils.removePunctuationAndSpaces (JS.toLowerCase value1) =
  Utils.removePunctuationAndSpaces (JS.toLowerCase value2) ->
  Utils.fuzzyMatch value1 value2 =
  (3 <? String.length (Utils.removePunctuationAndSpaces (JS.toLowerCase value1))).
Proof.
  intros E. unfold Utils.fuzzyMatch. rewrite <- E, levenshtein_refl.
  cbn [Nat.leb]. now rewrite andb_true_r, andb_diag.
Qed.

Lemma fuzzyMatch_same_witness :
  Utils.fuzzyMatch "New-York" "new york" = true /\
  Utils.fuzzyMatch "B.C." "bc" = false.
Proof.
  split.
  - rewrite (fuzzyMatch_same "New-York" "new york"); reflexivity.
  - rewrite (fuzzyMatch_same "B.C." "bc"); reflexivity.
Defined.

(** X5.  [fuzzyMatch] never matches two values of which, after
    lower-casing and the removal of punctuation and spaces, one has three
    characters or less, or one is two or more characters longer than the
    other. *)
Theorem fuzzyMatch_lengths (value1 value2 : string) :
  Utils.fuzzyMatch value1 value2 = true ->
  let n1 := String.length (Utils.removePunctuationAndSpaces (JS.toLowerCase value1)) in
  let n2 := String.length (Utils.removePunctuationAndSpaces (JS.toLowerCase value2)) in
  3 < n1 /\ 3 < n2 /\ n1 <= n2 + 1 /\ n2 <= n1 + 1.
Proof.
  unfold Utils.fuzzyMatch. intros H.
  apply andb_true_iff in H as [H Hd]. apply andb_true_iff in H as [H1 H2].
  apply Nat.ltb_lt in H1, H2. apply Nat.leb_le in Hd.
  pose proof (levenshtein_length
                (Utils.removePunctuationAndSpaces (JS.toLowerCase value1))
                (Utils.removePunctuationAndSpaces (JS.toLowerCase value2))) as L.
  cbv zeta. lia.
Qed.

Lemma fuzzyMatch_lengths_witness :
  let n1 := String.length (Utils.removePunctuationAndSpaces (JS.toLowerCase "Paris")) in
  let n2 := String.length (Utils.removePunctuationAndSpaces (JS.toLowerCase "Pariss!")) in
  3 < n1 /\ 3 < n2 /\ n1 <= n2 + 1 /\ n2 <= n1 + 1.
Proof. apply (fuzzyMatch_lengths "Paris" "Pariss!"). reflexivity. Defined.

Lemma compareStrings_str (x : string) (v : JS.value) :
  x <> "" ->
  Utils.compareStrings (JS.str x) v =
  if JS.truthy v then
    match v with
    | JS.str t => Some (JS.trim (JS.toLocaleLowerCase x) =? JS.trim (JS.toLocaleLowerCase t))%string
    | _ => None
    end
  else Some false.
Proof.
  intros Hx. apply String.eqb_neq in Hx.
  unfold Utils.compareStrings, JS.and. cbn [JS.truthy]. rewrite Hx. reflexivity.
Qed.

Lemma compareStrings_true (a b : JS.value) :
  Utils.compareStrings a b = Some true ->
  exists s t, a = JS.str s /\ b = JS.str t /\ s <> "" /\ t <> "" /\
              JS.trim (JS.toLowerCase s) = JS.trim (JS.toLowerCase t).
Proof.
  unfold Utils.compareStrings, JS.and. intros H.
  destruct (JS.truthy a) eqn:Ta.
  - destruct (JS.truthy b) eqn:Tb; [|discriminate].
    destruct a as [| | |?|s]; try discriminate.
    destruct b as [| | |?|t]; try discriminate.
    exists s, t. cbn [JS.truthy] in Ta, Tb.
    apply negb_true_iff in Ta, Tb. apply String.eqb_neq in Ta, Tb.
    injection H as H. apply String.eqb_eq in H.
    repeat split; assumption.
  - rewrite Ta in H. discriminate.
Qed.

(** X6.  [compareStrings] does not depend on the order of its arguments,
    whatever they are, and a string is the same as itself unless it is
    empty. *)
Theorem compareStrings_symmetric (string1 string2 : JS.value) (s : string) :
  Utils.compareStrings string1 string2 = Utils.compareStrings string2 string1 /\
  Utils.compareStrings (JS.str s) (JS.str s) = Some (negb (s =? "")%string).
Proof.
  split.
  - unfold Utils.compareStrings, JS.and.
    destruct (JS.truthy string1) eqn:T1; destruct (JS.truthy string2) eqn:T2;
      cbv iota; rewrite ?T1, ?T2; try reflexivity.
    destruct string1, string2; try reflexivity.
    f_equal. apply String.eqb_sym.
  - unfold Utils.compareStrings, JS.and. cbn [JS.truthy].
    destruct (s =? "")%string eqn:E; cbn [negb JS.truthy]; rewrite ?E; cbn [negb].
    + reflexivity.
    + now rewrite String.eqb_refl.
Qed.

(** X7.  [compareStrings] is transitive: a value that is the same as a
    second one, which is the same as a third one, is the same as the
    third. *)
Theorem compareStrings_transitive (string1 string2 string3 : JS.value) :
  Utils.compareStrings string1 string2 = Some true ->
  Utils.compareStrings string2 string3 = Some true ->
  Utils.compareStrings string1 string3 = Some true.
Proof.
  intros H12 H23.
  destruct (compareStrings_true _ _ H12) as (s & t & -> & -> & Hs & Ht & E1).
  destruct (compareStrings_true _ _ H23) as (t' & u & Et & -> & _ & Hu & E2).
  injection Et as <-.
  rewrite compareStrings_str by exact Hs. cbn [JS.truthy].
  apply String.eqb_neq in Hu. rewrite Hu. cbn [negb].
  unfold JS.toLocaleLowerCase. rewrite E1, E2. now rewrite String.eqb_refl.
Qed.

Lemma compareStrings_transitive_witness :
  Utils.compareStrings (JS.str " PARIS") (JS.str "paris ") = Some true.
Proof.
  apply (compareStrings_transitive (JS.str " PARIS") (JS.str "Paris") (JS.str "paris "));
    reflexivity.
Defined.

(** X8.  [compareStrings] ignores the case of a string and, when the
    string is not blank, the white space around it. *)
Theorem compareStrings_insensitive (s : string) (v : JS.value) :
  JS.trim s <> "" ->
  Utils.compareStrings (JS.str (JS.toLowerCase s)) v = Utils.compareStrings (JS.str s) v /\
  Utils.compareStrings (JS.str (JS.trim s)) v = Utils.compareStrings (JS.str s) v.
Proof.
  intros Ht.
  assert (Hs : s <> "") by (intros ->; now apply Ht).
  assert (Hl : JS.toLowerCase s <> "") by (intros E; now apply toLowerCase_empty in E).
  rewrite !compareStrings_str by assumption.
  unfold JS.toLocaleLowerCase.
  rewrite toLowerCase_idem, (trim_lower (JS.trim s)), trim_idem, <- trim_lower.
  split; reflexivity.
Qed.

Lemma compareStrings_insensitive_witness :
  Utils.compareStrings (JS.str (JS.toLowerCase "  True ")) (JS.str "true") =
    Utils.compareStrings (JS.str "  True ") (JS.str "true") /\
  Utils.compareStrings (JS.str (JS.trim "  True ")) (JS.str "true") =
    Utils.compareStrings (JS.str "  True ") (JS.str "true").
Proof. apply (compareStrings_insensitive "  True " (JS.str "true")). discriminate. Defined.

(** X9.  Whether two answers make a true/false question depends neither
    on their order nor, for [isTrueFalse], on their case. *)
Theorem isTrueFalse_order (a b : string) (answers : list string) :
  Utils.isTrueFalse [a; b] = Utils.isTrueFalse [b; a] /\
  Utils.isTrueFalse (map JS.toLowerCase answers) = Utils.isTrueFalse answers /\
  Trivia.isTrueFalseQuestion (Some [a; b]) = Trivia.isTrueFalseQuestion (Some [b; a]).
Proof.
  assert (Hswap : forall x y, Utils.isTrueFalse [x; y] = Utils.isTrueFalse [y; x]).
  { intros x y. unfold Utils.isTrueFalse. apply orb_comm. }
  split; [apply Hswap|]. split.
  - destruct answers as [|x [|y [|z answers]]]; try reflexivity.
    unfold Utils.isTrueFalse. cbn [map]. now rewrite !toLowerCase_idem.
  - unfold Trivia.isTrueFalseQuestion.
    destruct (Utils.getSynonyms (Some a)) as [|s1 l1];
      destruct (Utils.getSynonyms (Some b)) as [|s2 l2]; try reflexivity.
    rewrite (andb_comm (negb (s2 =? "")%string)).
    destruct (negb (s1 =? "")%string && negb (s2 =? "")%string); [|reflexivity].
    apply Hswap.
Qed.

Lemma split_app (sep : ascii) (x rest : string) :
  JS.includesChar sep x = false ->
  JS.split sep (x ++ String sep rest) = x :: JS.split sep rest.
Proof.
  induction x as [|c x IH]; intros H; cbn [append JS.split].
  - now rewrite Ascii.eqb_refl.
  - cbn [JS.includesChar] in H. apply orb_false_iff in H as [H1 H2].
    rewrite H1, IH by exact H2. reflexivity.
Qed.

Lemma split_join (sep : ascii) (l : list string) :
  l <> [] ->
  Forall (fun e => JS.includesChar sep e = false) l ->
  JS.split sep (JS.join (String sep "") l) = l.
Proof.
  unfold JS.join.
  induction l as [|x l IH]; intros Hne Hall; [congruence|].
  inversion Hall as [|? ? Hx Hl]; subst.
  destruct l as [|y l].
  - cbn [concat]. now apply split_no_sep.
  - change (String.concat (String sep "") (x :: y :: l))
      with (x ++ String sep (String.concat (String sep "") (y :: l)))%string.
    rewrite split_app by exact Hx. f_equal. apply IH; [discriminate | exact Hl].
Qed.

(** X10.  Every synonym that [getSynonyms] returns is trimmed and holds no
    separator. *)
Theorem getSynonyms_trimmed (value : option string) :
  Forall (fun e => JS.trim e = e /\ JS.includesChar Utils.SEPARATOR e = false)
         (Utils.getSynonyms value).
Proof.
  unfold Utils.getSynonyms.
  destruct value as [value|]; [|constructor].
  destruct (negb (value =? "")%string); [|constructor].
  apply Forall_map.
  eapply Forall_impl; [|apply (split_spec Utils.SEPARATOR value)].
  intros w [Hw _]. split; [apply trim_idem|].
  eapply charsIn_absent; [apply trim_charsIn | exact Hw].
Qed.

(** X11.  [getSynonyms] gives back the synonyms that were joined with the
    separator, provided each of them is trimmed and holds no separator and
    the joined value is not empty. *)
Theorem getSynonyms_join (synonyms : list string) :
  Forall (fun e => JS.trim e = e /\ JS.includesChar Utils.SEPARATOR e = false) synonyms ->
  JS.join (String Utils.SEPARATOR "") synonyms <> "" ->
  Utils.getSynonyms (Some (JS.join (String Utils.SEPARATOR "") synonyms)) = synonyms.
Proof.
  intros Hall Hne. unfold Utils.getSynonyms.
  apply String.eqb_neq in Hne. rewrite Hne. cbn [negb].
  assert (Hmap : map JS.trim synonyms = synonyms).
  { clear Hne. induction Hall as [|e l [He _] _ IH]; cbn [map]; [reflexivity|].
    now rewrite He, IH. }
  rewrite split_join.
  - exact Hmap.
  - intros ->. apply String.eqb_neq in Hne. now apply Hne.
  - eapply Forall_impl; [|exact Hall]. now intros e [_ He].
Qed.

Lemma getSynonyms_join_witness :
  Utils.getSynonyms (Some (JS.join (String Utils.SEPARATOR "") ["Paris"; "City of Light"])) =
  ["Paris"; "City of Light"].
Proof.
  apply (getSynonyms_join ["Paris"; "City of Light"]).
  - repeat constructor.
  - discriminate.
Defined.

Lemma findAllSynonyms_storeInv (values : list string) (synonyms : Utils.store) :
  Utils.findAllSynonyms values = Some synonyms -> storeInv synonyms.
Proof.
  unfold Utils.findAllSynonyms.
  assert (H0 : forall m, Some (@nil (string * list string)) = Some m -> storeInv m).
  { intros m E k g H. injection E as <-. discriminate. }
  revert H0. generalize (Some (@nil (string * list string))).
  induction values as [|v values IH]; intros acc Hacc; cbn [fold_left].
  - intros E. now apply Hacc.
  - apply IH. intros m E.
    destruct acc as [m0|]; [|discriminate].
    assert (E' : Utils.assign (JS.trim v) (synonymsFor (JS.trim v)) m0 = Some m).
    { rewrite <- E. unfold synonymsFor.
      now destruct (negb (JS.includesChar Utils.SEPARATOR (JS.trim v))). }
    unfold Utils.assign in E'.
    destruct (Utils.reservedKey (JS.trim v)); [discriminate|].
    injection E' as <-.
    apply storeInv_update; [now apply Hacc | apply synonymsFor_inv].
Qed.

Lemma append_empty_r (s : string) : (s ++ "")%string = s.
Proof. induction s as [|c s IH]; cbn [append]; [reflexivity | now rewrite IH]. Qed.

Lemma prefix_app (k x : string) : String.prefix k (k ++ x) = true.
Proof.
  induction k as [|c k IH]; cbn [append String.prefix].
  - now destruct x.
  - destruct (ascii_dec c c); [exact IH | congruence].
Qed.

Lemma join_head (sep k : string) (rest : list string) :
  exists x, JS.join sep (k :: rest) = (k ++ x)%string.
Proof.
  unfold JS.join. destruct rest as [|y rest]; cbn [concat].
  - exists "". now rewrite append_empty_r.
  - now exists (sep ++ String.concat sep (y :: rest))%string.
Qed.

(** X12.  Whenever [generateSynonyms] hands a result to its callback, the
    result has one entry for each value, in the order of the values, and
    the entry of a value starts with the trimmed value. *)
Theorem generateSynonyms_prefix (values results : list string) :
  Utils.generateSynonyms values = Some results ->
  Forall2 (fun v r => String.prefix (JS.trim v) r = true) values results.
Proof.
  unfold Utils.generateSynonyms.
  destruct (Utils.findAllSynonyms values) as [synonyms|] eqn:F; [|discriminate].
  intros E. injection E as <-.
  pose proof (removeDuplicates_inv values synonyms (findAllSynonyms_storeInv _ _ F)) as Hm.
  revert Hm. generalize (Utils.removeDuplicates values synonyms). intros m Hm.
  unfold Utils.collectResults. clear F.
  induction values as [|v values IH]; cbn [map]; constructor; [|exact IH].
  assert (Hself : String.prefix (JS.trim v) (JS.trim v) = true).
  { rewrite <- (append_empty_r (JS.trim v)) at 2. apply prefix_app. }
  destruct (Utils.lookup (JS.trim v) m) as [g|] eqn:L; [|exact Hself].
  destruct (Hm _ _ L) as ([-> | (rest & -> & _)] & _); cbn [List.length Nat.eqb negb].
  - exact Hself.
  - destruct (join_head (String Utils.SEPARATOR "") (JS.trim v) rest) as (x & ->).
    apply prefix_app.
Qed.

Lemma generateSynonyms_prefix_witness :
  Forall2 (fun v r => String.prefix (JS.trim v) r = true)
    [" Duran"; "Duran Duran"] ["Duran"; "Duran Duran"].
Proof.
  apply (generateSynonyms_prefix [" Duran"; "Duran Duran"] ["Duran"; "Duran Duran"]).
  vm_compute. reflexivity.
Defined.

Lemma synonymsFor_head (k : string) : exists rest, synonymsFor k = k :: rest.
Proof.
  unfold synonymsFor.
  destruct (JS.includesChar Utils.SEPARATOR k) eqn:E; cbn [negb].
  - destruct (separatedSynonyms_shape k) as (rest & H & _). now exists rest.
  - unfold Utils.plainSynonyms.
    destruct (JS.indexOf k (Utils.wordsOf k) =? -1)%Z eqn:I.
    + now exists (Utils.wordsOf k).
    + apply indexOf_present in I.
      assert (Hs : JS.includesChar Utils.SPACE k = false) by (now apply wordsOf_In in I).
      destruct (wordsOf_of_word k Hs) as [F | F]; rewrite F in *; [|destruct I].
      now exists [].
Qed.

Lemma forInKeys_single (k : string) (g : list string) : Utils.forInKeys [(k, g)] = [k].
Proof.
  unfold Utils.forInKeys. cbn [map fst fold_right filter].
  destruct (Utils.arrayIndex k); reflexivity.
Qed.

(** X13.  For a single value, as [answerIntent] passes it, the removal of
    duplicates removes nothing: the result is the one entry that joins the
    value with the words found for it. *)
Theorem generateSynonyms_single (value : string) :
  Utils.reservedKey (JS.trim value) = false ->
  Utils.generateSynonyms [value] =
  Some [JS.join (String Utils.SEPARATOR "") (synonymsFor (JS.trim value))].
Proof.
  intros Hres.
  destruct (synonymsFor_head (JS.trim value)) as (rest & Hg).
  assert (F : Utils.findAllSynonyms [value] =
              Some [(JS.trim value, synonymsFor (JS.trim value))]).
  { unfold Utils.findAllSynonyms, synonymsFor, Utils.assign. cbn [fold_left].
    rewrite Hres.
    now destruct (negb (JS.includesChar Utils.SEPARATOR (JS.trim value))). }
  unfold Utils.generateSynonyms. rewrite F.
  set (m := [(JS.trim value, synonymsFor (JS.trim value))]).
  assert (R : Utils.removeDuplicates [value] m = m).
  { unfold Utils.removeDuplicates, Utils.removeForValue. cbn [fold_left].
    destruct (Utils.lookup value m) as [g|] eqn:L; [|reflexivity].
    unfold m in *. rewrite forInKeys_single. cbn [fold_left].
    unfold Utils.removeFromKey. cbn [Utils.lookup] in L.
    destruct (JS.trim value =? value)%string; [reflexivity | discriminate]. }
  rewrite R. unfold Utils.collectResults, m. cbn [map Utils.lookup].
  rewrite String.eqb_refl, Hg. reflexivity.
Qed.

Lemma generateSynonyms_single_witness :
  Utils.generateSynonyms ["The Lord of the Rings"] =
  Some [JS.join (String Utils.SEPARATOR "") (synonymsFor (JS.trim "The Lord of the Rings"))].
Proof. apply (generateSynonyms_single "The Lord of the Rings"). reflexivity. Defined.

(** ** functions/ssml.js *)

Lemma escape_str (s : string) :
  Ssml.escape (JS.str s) = JS.str (Ssml.replaceAmpersands s).
Proof. destruct s; reflexivity. Qed.

Lemma replaceAmpersands_injective (s t : string) :
  Ssml.replaceAmpersands s = Ssml.replaceAmpersands t -> s = t.
Proof.
  revert t. induction s as [|c s IH]; intros [|d t]; cbn [Ssml.replaceAmpersands].
  - reflexivity.
  - destruct (Ascii.eqb d "&"); cbn [append]; discriminate.
  - destruct (Ascii.eqb c "&"); cbn [append]; discriminate.
  - destruct (Ascii.eqb_spec c "&"%char) as [-> | Nc];
      destruct (Ascii.eqb_spec d "&"%char) as [-> | Nd]; cbn [append]; intros E.
    + f_equal. apply IH. now injection E.
    + injection E as E _. congruence.
    + injection E as E _. congruence.
    + injection E as -> E. f_equal. now apply IH.
Qed.

Lemma replaceAmpersands_length (s : string) :
  String.length s <= String.length (Ssml.replaceAmpersands s) /\
  (JS.includesChar "&" s = true ->
   String.length s < String.length (Ssml.replaceAmpersands s)).
Proof.
  induction s as [|c s [IH1 IH2]]; cbn [Ssml.replaceAmpersands JS.includesChar].
  - split; [reflexivity | discriminate].
  - destruct (Ascii.eqb c "&"); cbn [append String.length orb].
    + split; [lia | intros _; lia].
    + split; [lia | intros H; specialize (IH2 H); lia].
Qed.

Lemma replaceAmpersands_id (s : string) :
  JS.includesChar "&" s = false -> Ssml.replaceAmpersands s = s.
Proof.
  induction s as [|c s IH]; cbn [Ssml.replaceAmpersands JS.includesChar];
    [reflexivity|].
  intros H. apply orb_false_iff in H as [H1 H2]. rewrite H1. now rewrite IH.
Qed.

(** X14.  [escape] loses nothing: two values that it maps to the same
    result are the same value. *)
Theorem escape_injective (value1 value2 : JS.value) :
  Ssml.escape value1 = Ssml.escape value2 -> value1 = value2.
Proof.
  destruct value1 as [| | b1 | z1 | s1]; destruct value2 as [| | b2 | z2 | s2];
    rewrite ?escape_str; cbn [Ssml.escape]; intros E; try congruence.
  injection E as E. f_equal. now apply replaceAmpersands_injective.
Qed.

Lemma escape_injective_witness : JS.str "Q&A" = JS.str "Q&A".
Proof. apply (escape_injective (JS.str "Q&A") (JS.str "Q&A")). reflexivity. Defined.

(** X15.  [escape] leaves a string as it is exactly when the string holds
    no ampersand; escaping a second time changes the result exactly when
    the string holds one. *)
Theorem escape_ampersand (s : string) :
  (Ssml.escape (JS.str s) = JS.str s <-> JS.includesChar "&" s = false) /\
  (Ssml.escape (Ssml.escape (JS.str s)) = Ssml.escape (JS.str s) <->
   JS.includesChar "&" s = false).
Proof.
  assert (H1 : Ssml.escape (JS.str s) = JS.str s <-> JS.includesChar "&" s = false).
  { rewrite escape_str. split.
    - intros E. injection E as E.
      destruct (JS.includesChar "&" s) eqn:I; [|reflexivity].
      apply (proj2 (replaceAmpersands_length s)) in I. rewrite E in I. lia.
    - intros I. now rewrite replaceAmpersands_id. }
  split; [exact H1|].
  rewrite <- H1. rewrite !escape_str. split.
  - intros E. injection E as E. f_equal. now apply replaceAmpersands_injective.
  - intros E. injection E as E. now rewrite !E.
Qed.

Lemma say_all (values : list JS.value) (tags : list JS.value) :
  fold_left (fun tags v => Ssml.say v tags) values tags =
  tags ++ map Ssml.escape (filter JS.truthy values).
Proof.
  revert tags. induction values as [|v values IH]; intros tags; cbn [fold_left filter].
  - now rewrite app_nil_r.
  - rewrite IH. unfold Ssml.say. destruct (JS.truthy v); [|reflexivity].
    cbn [map]. now rewrite <- app_assoc.
Qed.

(** X16.  A response built by [say] alone reads, between [<speak>] and
    [</speak>], the escaped values in their order with a space between
    them; a value that is missing or empty adds nothing. *)
Theorem toString_say (values : list JS.value) :
  Ssml.toString (fold_left (fun tags v => Ssml.say v tags) values []) =
  ("<speak>" ++
   JS.join " " (map (fun v => JS.show (Ssml.escape v)) (filter JS.truthy values)) ++
   "</speak>")%string.
Proof.
  unfold Ssml.toString. rewrite say_all. cbn [app]. now rewrite map_map.
Qed.

(** ** functions/themes.js *)

Lemma strictEquals_eq (a b : JS.value) : JS.strictEquals a b = true <-> a = b.
Proof.
  destruct a as [| | x | x | x]; destruct b as [| | y | y | y]; cbn [JS.strictEquals];
    try (split; [discriminate | congruence]); try tauto.
  - rewrite Bool.eqb_true_iff. split; congruence.
  - rewrite Z.eqb_eq. split; congruence.
  - rewrite String.eqb_eq. split; congruence.
Qed.

Lemma item_member (array : list string) (r : JS.draw) :
  (array = [] /\ Themes.item (Utils.getRandomItem array r) = JS.undefined) \/
  (exists s, Themes.item (Utils.getRandomItem array r) = JS.str s /\ In s array).
Proof.
  pose proof (getRandomItem_spec array r) as H.
  destruct (Utils.getRandomItem array r) as [s|]; cbn [Themes.item].
  - right. now exists s.
  - now left.
Qed.

Section Prompts.

Variable prompts : string -> string -> option (list string).
Variable random : nat -> JS.draw.
Variable array : list string.
Variable lastPrompt : JS.value.

Lemma redraw_spec (remaining : nat) (prompt : JS.value) (calls : nat) :
  let '(p, calls') := Themes.redraw random remaining array lastPrompt prompt calls in
  calls <= calls' <= calls + remaining /\
  (p = prompt \/ exists i, i < remaining /\ p = Themes.item (Utils.getRandomItem array (random (calls + i)))) /\
  (p = lastPrompt <->
   prompt = lastPrompt /\ forall i, i < remaining -> Themes.item (Utils.getRandomItem array (random (calls + i))) = lastPrompt).
Proof.
  revert prompt calls.
  induction remaining as [|r IH]; intros prompt calls; cbn [Themes.redraw].
  - split; [lia|]. split; [now left|]. split; [|tauto].
    intros E. split; [exact E | intros i Hi; lia].
  - destruct (JS.strictEquals prompt lastPrompt) eqn:E.
    + apply strictEquals_eq in E.
      specialize (IH (Themes.item (Utils.getRandomItem array (random calls))) (S calls)).
      destruct (Themes.redraw random r array lastPrompt
                  (Themes.item (Utils.getRandomItem array (random calls))) (S calls))
        as [p calls'].
      destruct IH as (Hc & Hp & Hl). split; [lia|]. split.
      * right. destruct Hp as [-> | (i & Hi & ->)].
        -- exists 0. split; [lia|]. now rewrite Nat.add_0_r.
        -- exists (S i). split; [lia|]. now rewrite Nat.add_succ_r.
      * rewrite Hl. split.
        -- intros [H0 Hall]. split; [exact E|]. intros [|i] Hi.
           ++ now rewrite Nat.add_0_r.
           ++ rewrite Nat.add_succ_r. apply Hall. lia.
        -- intros [_ Hall]. split.
           ++ specialize (Hall 0). rewrite Nat.add_0_r in Hall. apply Hall. lia.
           ++ intros i Hi. specialize (Hall (S i)).
              rewrite Nat.add_succ_r in Hall. apply Hall. lia.
    + split; [lia|]. split; [now left|]. split.
      * intros H. apply strictEquals_eq in H. congruence.
      * intros [H _]. apply strictEquals_eq in H. congruence.
Qed.

End Prompts.

(** X17.  [getRandomPrompt] answers with one of the prompts of the theme
    and the type, after at least one and at most as many draws as there
    are prompts; it answers [undefined] only for an empty array of prompts,
    and with the text [Missing prompts: ] and the type, without a draw,
    when the theme or the type is empty or has no prompts. *)
Theorem getRandomPrompt_member (prompts : string -> string -> option (list string))
    (random : nat -> JS.draw) (theme type : string) (lastPrompt : JS.value)
    (calls : nat) :
  let '(prompt, calls') :=
    Themes.getRandomPrompt prompts random theme type lastPrompt calls in
  match Themes.getPrompts prompts theme type with
  | Some array =>
      ((array = [] /\ prompt = JS.undefined) \/
       (exists s, prompt = JS.str s /\ In s array)) /\
      calls < calls' <= calls + Nat.max 1 (List.length array)
  | None => prompt = JS.str ("Missing prompts: " ++ type) /\ calls' = calls
  end.
Proof.
  unfold Themes.getRandomPrompt, Themes.getPrompts.
  destruct (negb (theme =? "")%string && negb (type =? "")%string);
    [|split; reflexivity].
  destruct (prompts theme type) as [array|]; [|split; reflexivity].
  destruct (JS.truthy lastPrompt).
  - pose proof (redraw_spec random array lastPrompt (List.length array - 1)
                  (Themes.item (Utils.getRandomItem array (random calls))) (S calls)) as H.
    destruct (Themes.redraw random (List.length array - 1) array lastPrompt
                (Themes.item (Utils.getRandomItem array (random calls))) (S calls))
      as [p calls'].
    destruct H as (Hc & Hp & _). split; [|lia].
    destruct Hp as [-> | (i & _ & ->)]; apply item_member.
  - split; [apply item_member | lia].
Qed.

(** X18.  With a last prompt to avoid, [getRandomPrompt] answers with that
    prompt again exactly when each of the draws it is allowed, as many as
    there are prompts, has selected it. *)
Theorem getRandomPrompt_avoids (prompts : string -> string -> option (list string))
    (random : nat -> JS.draw) (theme type : string) (lastPrompt : JS.value)
    (calls : nat) (array : list string) :
  Themes.getPrompts prompts theme type = Some array ->
  array <> [] ->
  JS.truthy lastPrompt = true ->
  fst (Themes.getRandomPrompt prompts random theme type lastPrompt calls) = lastPrompt <->
  forall i, i < List.length array ->
    Themes.item (Utils.getRandomItem array (random (calls + i))) = lastPrompt.
Proof.
  unfold Themes.getRandomPrompt, Themes.getPrompts. intros Hp Hne Ht.
  destruct (negb (theme =? "")%string && negb (type =? "")%string); [|discriminate].
  rewrite Hp, Ht.
  pose proof (redraw_spec random array lastPrompt (List.length array - 1)
                (Themes.item (Utils.getRandomItem array (random calls))) (S calls)) as H.
  destruct (Themes.redraw random (List.length array - 1) array lastPrompt
              (Themes.item (Utils.getRandomItem array (random calls))) (S calls))
    as [p calls'].
  destruct H as (_ & _ & Hl). cbn [fst]. rewrite Hl.
  assert (Hlen : 0 < List.length array) by (destruct array; [congruence | cbn; lia]).
  split.
  - intros [H0 Hall] [|i] Hi.
    + now rewrite Nat.add_0_r.
    + specialize (Hall i). rewrite Nat.add_succ_r. apply Hall. lia.
  - intros Hall. split.
    + specialize (Hall 0). rewrite Nat.add_0_r in Hall. now apply Hall.
    + intros i Hi. specialize (Hall (S i)). rewrite Nat.add_succ_r in Hall.
      apply Hall. lia.
Qed.

Lemma getRandomPrompt_avoids_witness :
  fst (Themes.getRandomPrompt (fun _ _ => Some ["Correct!"; "Right!"]) stuck
         "teacher" "RIGHT_ANSWER_PROMPTS_1" (JS.str "Correct!") 0) = JS.str "Correct!" <->
  forall i, i < List.length ["Correct!"; "Right!"] ->
    Themes.item (Utils.getRandomItem ["Correct!"; "Right!"] (stuck (0 + i))) =
    JS.str "Correct!".
Proof.
  apply (getRandomPrompt_avoids (fun _ _ => Some ["Correct!"; "Right!"]) stuck
           "teacher" "RIGHT_ANSWER_PROMPTS_1" (JS.str "Correct!") 0
           ["Correct!"; "Right!"]);
    [reflexivity | discriminate | reflexivity].
Defined.

(** ** selectQuestions, continued *)

Lemma trimHistory_nil (len n : nat) : 0 < n -> Trivia.trimHistory len n [] = [].
Proof.
  intros Hn. unfold Trivia.trimHistory. cbn [List.length].
  destruct (Nat.leb_spec n 0); [lia|]. reflexivity.
Qed.

Lemma layout_length (history accepted : list Z) (previousIndex : nat) :
  List.length (layout history accepted previousIndex) =
  List.length accepted + previousIndex.
Proof. unfold layout. now rewrite length_app, !length_map, length_seq. Qed.

Lemma selectQuestions_empty_corpus (random : nat -> JS.draw) (fuel calls gameLength : nat)
    (previousQuestions : list Z) :
  Trivia.selectQuestions random fuel calls gameLength previousQuestions (Some []) =
  Trivia.Done {| Trivia.selected := Some [];
                 Trivia.newGameLength := 0;
                 Trivia.newPreviousQuestions := map Some previousQuestions ++ [];
                 Trivia.newCalls := calls |}.
Proof.
  unfold Trivia.selectQuestions. cbn [List.length].
  assert (E : (if 0 <? gameLength then 0 else gameLength) = 0)
    by (destruct gameLength; reflexivity).
  rewrite E. unfold Trivia.trimHistory.
  cbn [Nat.leb orb skipn Trivia.selectLoop]. rewrite orb_true_r. reflexivity.
Qed.

(** X19.  For a user without history and a corpus that is not empty,
    every finished run of [selectQuestions] returns [min gameLength n]
    different indices of the corpus, and stores them as the history. *)
Theorem selectQuestions_new_user (random : nat -> JS.draw) (fuel calls gameLength : nat)
    (questions : list string) (result : Trivia.selection) :
  questions <> [] ->
  Trivia.selectQuestions random fuel calls gameLength [] (Some questions) =
    Trivia.Done result ->
  exists picked,
    Trivia.selected result = Some (map Some picked) /\
    Trivia.newPreviousQuestions result = map Some picked /\
    List.length picked = Nat.min gameLength (List.length questions) /\
    NoDup picked /\
    forall j, In j picked -> (0 <= j < Z.of_nat (List.length questions))%Z.
Proof.
  intros Hne Hrun.
  pose proof (selectQuestions_post random calls gameLength [] questions Hne fuel result Hrun)
    as H. cbv zeta in H.
  assert (Hn : 0 < List.length questions) by (now apply corpus_not_empty).
  rewrite trimHistory_nil in H by exact Hn.
  destruct H as (acc & pi & checked & Hsel & Hgl & Hprev & Hinv & Hl).
  assert (Hpi : pi <= 0).
  { apply (reuse_bound _ [] acc checked pi Hinv). lia. }
  assert (pi = 0) by lia. subst pi.
  unfold layout in *. cbn [seq map] in *. rewrite app_nil_r in *.
  exists acc. split; [exact Hsel|]. split; [exact Hprev|]. split; [lia|].
  split; [apply Hinv|]. intros j Hj. now apply (inv_fresh _ _ _ _ _ Hinv).
Qed.

Lemma selectQuestions_new_user_witness :
  exists picked,
    Trivia.selected
      {| Trivia.selected := Some [Some 0%Z; Some 1%Z];
         Trivia.newGameLength := 2;
         Trivia.newPreviousQuestions := [Some 0%Z; Some 1%Z];
         Trivia.newCalls := 2 |} = Some (map Some picked) /\
    Trivia.newPreviousQuestions
      {| Trivia.selected := Some [Some 0%Z; Some 1%Z];
         Trivia.newGameLength := 2;
         Trivia.newPreviousQuestions := [Some 0%Z; Some 1%Z];
         Trivia.newCalls := 2 |} = map Some picked /\
    List.length picked = Nat.min 2 (List.length fiveQuestions) /\
    NoDup picked /\
    forall j, In j picked -> (0 <= j < Z.of_nat (List.length fiveQuestions))%Z.
Proof.
  apply (selectQuestions_new_user (roundRobin 5) 10 0 2 fiveQuestions).
  - discriminate.
  - vm_compute. reflexivity.
Defined.

(** X20.  When the history that is consulted (the history after its trim)
    holds every index of the corpus, a finished run of [selectQuestions]
    returns the oldest [min gameLength n] entries of that history, in
    their order. *)
Theorem selectQuestions_replays (random : nat -> JS.draw) (fuel calls gameLength : nat)
    (previousQuestions : list Z) (questions : list string) (result : Trivia.selection) :
  let n := List.length questions in
  let len := Nat.min gameLength n in
  let history := Trivia.trimHistory len n previousQuestions in
  questions <> [] ->
  absentFrom n history = [] ->
  Trivia.selectQuestions random fuel calls gameLength previousQuestions (Some questions) =
    Trivia.Done result ->
  Trivia.selected result = Some (map Some (firstn len history)).
Proof.
  intros n len history Hne Habs Hrun.
  pose proof (selectQuestions_post random calls gameLength previousQuestions questions
                Hne fuel result Hrun) as H.
  cbv zeta in H. fold n len history in H.
  destruct H as (acc & pi & checked & Hsel & _ & _ & Hinv & Hl).
  assert (Hacc : acc = []).
  { destruct acc as [|j acc]; [reflexivity|]. exfalso.
    destruct (inv_fresh _ _ _ _ _ Hinv j (or_introl eq_refl)) as [Hr Hj].
    assert (Hin : In j (absentFrom n history)).
    { unfold absentFrom. apply filter_In. split.
      - now apply indices_In.
      - now apply indexOf_Z_absent. }
    rewrite Habs in Hin. destruct Hin. }
  subst acc. cbn [List.length] in Hl.
  assert (Hpi : pi <= List.length history).
  { apply (reuse_bound n history [] checked pi Hinv). cbn [List.length]. lia. }
  rewrite (layout_defined history [] pi Hpi) in Hsel. cbn [app] in Hsel.
  rewrite Hsel. now replace pi with len by lia.
Qed.

Lemma selectQuestions_replays_witness :
  Trivia.selected
    {| Trivia.selected := Some [Some 1%Z; Some 0%Z];
       Trivia.newGameLength := 2;
       Trivia.newPreviousQuestions := [Some 1%Z; Some 0%Z; Some 1%Z; Some 0%Z];
       Trivia.newCalls := 2 |} =
  Some (map Some (firstn (Nat.min 2 (List.length twoQuestions))
                         (Trivia.trimHistory (Nat.min 2 (List.length twoQuestions))
                            (List.length twoQuestions) [0; 1; 1; 0]%Z))).
Proof.
  apply (selectQuestions_replays (roundRobin 2) 10 0 2 [0; 1; 1; 0]%Z twoQuestions).
  - discriminate.
  - reflexivity.
  - vm_compute. reflexivity.
Defined.

(** X21.  A finished run of [selectQuestions] never shortens the history
    of the user, and leaves it no longer than it was or, if that is more,
    than [MAX_PREVIOUS_QUESTIONS] entries and the questions of one
    round. *)
Theorem selectQuestions_history (random : nat -> JS.draw) (fuel calls gameLength : nat)
    (previousQuestions : list Z) (questions : list string) (result : Trivia.selection) :
  Trivia.selectQuestions random fuel calls gameLength previousQuestions (Some questions) =
    Trivia.Done result ->
  List.length previousQuestions <= List.length (Trivia.newPreviousQuestions result) /\
  List.length (Trivia.newPreviousQuestions result) <=
    Nat.max (List.length previousQuestions)
            (Trivia.MAX_PREVIOUS_QUESTIONS + Nat.min gameLength (List.length questions)).
Proof.
  intros Hrun.
  destruct questions as [|q questions].
  - rewrite selectQuestions_empty_corpus in Hrun. injection Hrun as <-.
    cbn [Trivia.newPreviousQuestions]. rewrite app_nil_r, length_map. lia.
  - pose proof (selectQuestions_post random calls gameLength previousQuestions
                  (q :: questions) ltac:(discriminate) fuel result Hrun) as H.
    cbv zeta in H.
    destruct H as (acc & pi & checked & _ & _ & Hprev & _ & Hl).
    rewrite Hprev, length_app, length_map, layout_length, Hl.
    unfold Trivia.trimHistory, Trivia.MAX_PREVIOUS_QUESTIONS.
    destruct (Nat.ltb_spec 100 (List.length previousQuestions));
      destruct (Nat.leb_spec (List.length (q :: questions)) (List.length previousQuestions));
      cbn [orb]; rewrite ?length_skipn; lia.
Qed.

Lemma selectQuestions_history_witness :
  List.length [0; 1; 1; 0]%Z <=
    List.length (Trivia.newPreviousQuestions
      {| Trivia.selected := Some [Some 1%Z; Some 0%Z];
         Trivia.newGameLength := 2;
         Trivia.newPreviousQuestions := [Some 1%Z; Some 0%Z; Some 1%Z; Some 0%Z];
         Trivia.newCalls := 2 |}) /\
  List.length (Trivia.newPreviousQuestions
      {| Trivia.selected := Some [Some 1%Z; Some 0%Z];
         Trivia.newGameLength := 2;
         Trivia.newPreviousQuestions := [Some 1%Z; Some 0%Z; Some 1%Z; Some 0%Z];
         Trivia.newCalls := 2 |}) <=
    Nat.max (List.length [0; 1; 1; 0]%Z)
            (Trivia.MAX_PREVIOUS_QUESTIONS + Nat.min 2 (List.length twoQuestions)).
Proof.
  apply (selectQuestions_history (roundRobin 2) 10 0 2 [0; 1; 1; 0]%Z twoQuestions).
  vm_compute. reflexivity.
Defined.

(** ** The round and its session data *)

Section Round.

Variable random : nat -> JS.draw.

(** The answers that are presented for the stored answers of a question. *)
Lemma presentAnswers_spec (calls : nat) (answers : list string) :
  let '(correctIndex, selectedAnswers, _) :=
    Trivia.presentAnswers random calls answers in
  match selectedAnswers with
  | Some selected =>
      2 <= List.length answers /\
      Permutation selected (map Some answers) /\
      JS.get selected correctIndex = Some (nth_error answers 0)
  | None => List.length answers < 2
  end.
Proof.
  unfold Trivia.presentAnswers.
  destruct (Trivia.isTrueFalseQuestion (Some answers)) eqn:TF.
  - destruct answers as [|a0 [|a1 [|a2 rest]]]; try discriminate.
    split; [cbn; lia|]. split; [apply Permutation_refl | reflexivity].
  - unfold Trivia.selectAnswers.
    destruct (Nat.ltb_spec 1 (List.length answers)) as [Hlen | Hlen]; [|lia].
    destruct answers as [|a0 rest]; [cbn in Hlen; lia|].
    remember (Utils.getRandomNumber 0 (Z.of_nat (List.length (a0 :: rest)) - 1)
                (random calls)) as c eqn:Ec.
    assert (Hc : (0 <= c < Z.of_nat (List.length (a0 :: rest)))%Z).
    { subst c. apply getRandomNumber_range. cbn [List.length]. lia. }
    destruct (selectAnswersLoop_spec random a0 c (List.length (a0 :: rest)) 0 rest []
                (S calls))
      as (tail & calls' & Hrun & Hperm & Hnth).
    { intros _. cbn [List.length] in *. split; lia. }
    { intros L. cbn in L. lia. }
    cbn [skipn nth_error]. cbn [map app] in Hrun. rewrite Hrun.
    replace (Z.of_nat 0 <=? c)%Z with true in Hperm by (symmetry; apply Z.leb_le; lia).
    split; [cbn [List.length] in *; lia|]. split.
    + now apply Permutation_map.
    + unfold JS.get. destruct (Z.ltb_spec c 0); [lia|].
      rewrite nth_error_map, Nat.sub_0_r in *. rewrite Hnth by (cbn; lia). reflexivity.
Qed.

Lemma nextQuestion_step (calls : nat) (d : Trivia.data) :
  consistent d ->
  let '(d', r, _) := Trivia.nextQuestion random calls d in
  consistent d' /\
  Trivia.score d' = Trivia.score d /\
  Trivia.correct d' = Trivia.correct d /\
  Trivia.gameLength d' = Trivia.gameLength d /\
  Trivia.sessionAnswers d' = Trivia.sessionAnswers d /\
  ((Trivia.currentQuestion d = Trivia.gameLength d - 1)%Z /\ d' = d /\
   r = Trivia.Ask Trivia.PLAY_AGAIN_QUESTION_PROMPTS \/
   (Trivia.currentQuestion d < Trivia.gameLength d - 1)%Z /\
   (d' = d \/
    Trivia.currentQuestion d' = (Trivia.currentQuestion d + 1)%Z /\
    Trivia.fallbackCount d' = Some 0%Z)).
Proof.
  intros Hd. pose proof Hd as (Hround & _).
  unfold Trivia.nextQuestion.
  destruct (Z.eqb_spec (Trivia.currentQuestion d) (Trivia.gameLength d - 1)) as [E | N].
  - repeat split; try assumption; try apply Hd. left. auto.
  - assert (Hlt : (Trivia.currentQuestion d < Trivia.gameLength d - 1)%Z) by lia.
    destruct (JS.get (Trivia.sessionAnswers d) (Trivia.currentQuestion d + 1))
      as [[answers|]|] eqn:G;
      try (repeat split; try assumption; try apply Hd; right; auto).
    pose proof (presentAnswers_spec calls answers) as P.
    destruct (Trivia.presentAnswers random calls answers) as [[correctIndex [selected|]] calls'].
    + destruct P as (Hlen & Hperm & Hget).
      cbn [Trivia.score Trivia.correct Trivia.gameLength Trivia.sessionAnswers
           Trivia.currentQuestion Trivia.fallbackCount].
      split.
      * split; [cbn; lia|]. exists answers. cbn. auto.
      * do 4 (split; [reflexivity|]). right. split; [exact Hlt|]. right. auto.
    + repeat split; try assumption; try apply Hd. right. auto.
Qed.

(** X22.  [nextQuestion] keeps the session data of a round in progress
    consistent and never changes the score: on the last question of the
    round it asks whether to play again and changes nothing; before that,
    whenever it changes the session data, it moves to the next question
    and sets the count of fallbacks back to 0. *)
Theorem nextQuestion_consistent (calls : nat) (d : Trivia.data) :
  consistent d ->
  let '(d', r, _) := Trivia.nextQuestion random calls d in
  consistent d' /\
  Trivia.score d' = Trivia.score d /\
  ((Trivia.currentQuestion d = Trivia.gameLength d - 1)%Z /\ d' = d /\
   r = Trivia.Ask Trivia.PLAY_AGAIN_QUESTION_PROMPTS \/
   (Trivia.currentQuestion d < Trivia.gameLength d - 1)%Z /\
   (d' = d \/
    Trivia.currentQuestion d' = (Trivia.currentQuestion d + 1)%Z /\
    Trivia.fallbackCount d' = Some 0%Z)).
Proof.
  intros Hd. pose proof (nextQuestion_step calls d Hd) as H.
  destruct (Trivia.nextQuestion random calls d) as [[d' r] calls'].
  tauto.
Qed.

End Round.

Lemma nextQuestion_consistent_witness :
  let '(d', r, _) := Trivia.nextQuestion stuck 0 thirdQuestion in
  consistent d' /\
  Trivia.score d' = Trivia.score thirdQuestion /\
  ((Trivia.currentQuestion thirdQuestion = Trivia.gameLength thirdQuestion - 1)%Z /\
   d' = thirdQuestion /\
   r = Trivia.Ask Trivia.PLAY_AGAIN_QUESTION_PROMPTS \/
   (Trivia.currentQuestion thirdQuestion < Trivia.gameLength thirdQuestion - 1)%Z /\
   (d' = thirdQuestion \/
    Trivia.currentQuestion d' = (Trivia.currentQuestion thirdQuestion + 1)%Z /\
    Trivia.fallbackCount d' = Some 0%Z)).
Proof.
  apply (nextQuestion_consistent stuck 0 thirdQuestion).
  split; [cbn; lia|].
  exists ["Mars"; "Venus"]. split; [reflexivity|]. split; [cbn; lia|].
  split; [apply perm_swap | reflexivity].
Defined.

Section Turns.

Variable random : nat -> JS.draw.

Lemma nextQuestion_advances (calls : nat) (d0 d : Trivia.data) :
  consistent d ->
  Trivia.gameLength d = Trivia.gameLength d0 ->
  Trivia.currentQuestion d = Trivia.currentQuestion d0 ->
  (Trivia.score d0 <= Trivia.score d <= Trivia.score d0 + 1)%Z ->
  (Trivia.score d = (Trivia.score d0 + 1)%Z -> Trivia.correct d = Some true) ->
  advances d0 (Trivia.nextQuestion random calls d).
Proof.
  intros Hd Hg Hq Hs Hc. pose proof (nextQuestion_step random calls d Hd) as H.
  unfold advances.
  destruct (Trivia.nextQuestion random calls d) as [[d' r] calls'].
  destruct H as (H1 & H2 & H3 & H4 & _ & H6).
  split; [exact H1|]. split; [congruence|]. split; [lia|]. split.
  - destruct H6 as [(_ & -> & _) | (_ & [-> | (E & _)])]; lia.
  - intros E. rewrite H3. apply Hc. lia.
Qed.

Lemma unknownIntentWith_advances
    (valueIntent : JS.value -> nat -> Trivia.data -> Trivia.data * Trivia.response * nat)
    (req : Trivia.request) (otherIntentTriggered : bool) (calls : nat) (d : Trivia.data) :
  (forall choice calls d, consistent d -> advances d (valueIntent choice calls d)) ->
  consistent d ->
  advances d (Trivia.unknownIntentWith random valueIntent req otherIntentTriggered calls d).
Proof.
  intros Hvi Hd. unfold Trivia.unknownIntentWith.
  set (d1 := Trivia.setFallbackCount _ d).
  assert (Hd1 : consistent d1) by exact Hd.
  destruct (if negb otherIntentTriggered
            then Trivia.matchedAnswer (Trivia.selectedAnswers d1)
                   (JS.trim (Trivia.rawInput req))
            else None) as [i|].
  - apply (Hvi _ calls d1 Hd1).
  - destruct (Trivia.dictionary req).
    + unfold Trivia.handleDictionaryInput.
      apply nextQuestion_advances; try reflexivity; try exact Hd.
      * cbn. lia.
      * cbn. lia.
    + unfold advances. split; [exact Hd1|]. cbn. repeat split; try lia.
    + unfold advances. split; [exact Hd1|]. cbn. repeat split; try lia.
Qed.

Lemma valueIntent_advances (req : Trivia.request) (last middle : bool)
    (choice : JS.value) (calls : nat) (d : Trivia.data) :
  consistent d ->
  advances d (Trivia.valueIntent random req last middle choice calls d).
Proof.
  intros Hd. unfold Trivia.valueIntent. cbv zeta.
  match goal with
  | |- context [JS.truthy (Trivia.isValidAnswer ?n ?l)] =>
      destruct (JS.truthy (Trivia.isValidAnswer n l))
  end.
  - match goal with
    | |- context [Trivia.optZ_eqb ?a ?b] => destruct (Trivia.optZ_eqb a b)
    end.
    + apply nextQuestion_advances; try reflexivity; try exact Hd; cbn; lia.
    + apply nextQuestion_advances; try reflexivity; try exact Hd; cbn; lia.
  - apply unknownIntentWith_advances; [|exact Hd].
    intros _ calls0 d0 Hd0. unfold advances. split; [exact Hd0|].
    repeat split; try lia.
Qed.

(** X23.  Every handler of an answer keeps the session data of a round in
    progress consistent: the round keeps its length, the score and the
    number of the current question stay or grow by one, and the score
    grows only with an answer that is marked as correct. *)
Theorem act_advances (a : Trivia.action) (req : Trivia.request) (calls : nat)
    (d : Trivia.data) :
  consistent d -> advances d (Trivia.act random a req calls d).
Proof.
  intros Hd. destruct a as [[| | | |]| | | |selectedOption]; cbn [Trivia.act Trivia.handleRequest].
  - unfold Trivia.unknownIntent. apply unknownIntentWith_advances; [|exact Hd].
    intros choice calls0 d0 Hd0. now apply valueIntent_advances.
  - now apply valueIntent_advances.
  - now apply valueIntent_advances.
  - now apply valueIntent_advances.
  - now apply valueIntent_advances.
  - unfold Trivia.dontKnowIntent.
    apply nextQuestion_advances; try reflexivity; try exact Hd; lia.
  - now apply valueIntent_advances.
  - now apply valueIntent_advances.
  - now apply valueIntent_advances.
Qed.

End Turns.

Lemma act_advances_witness :
  advances thirdQuestion (Trivia.act stuck Trivia.TRUE_INTENT (said "true") 0 thirdQuestion).
Proof.
  apply (act_advances stuck Trivia.TRUE_INTENT (said "true") 0 thirdQuestion).
  split; [cbn; lia|].
  exists ["Mars"; "Venus"]. split; [reflexivity|]. split; [cbn; lia|].
  split; [apply perm_swap | reflexivity].
Defined.

(** ** startNewRound *)






(** ** The intents of a true/false question *)

Lemma labelled_trueFalse (a b : string) :
  Trivia.isTrueFalseQuestion (Some [a; b]) = true ->
  (Trivia.labelled (JS.str Utils.TRUE) [Some a; Some b] = 1%Z /\
   Trivia.labelled (JS.str Utils.FALSE) [Some a; Some b] = 2%Z) \/
  (Trivia.labelled (JS.str Utils.TRUE) [Some a; Some b] = 2%Z /\
   Trivia.labelled (JS.str Utils.FALSE) [Some a; Some b] = 1%Z).
Proof.
  unfold Trivia.isTrueFalseQuestion, Trivia.labelled. cbn [Trivia.findIndex].
  destruct (Utils.getSynonyms (Some a)) as [|s1 l1]; [discriminate|].
  destruct (Utils.getSynonyms (Some b)) as [|s2 l2]; [discriminate|].
  destruct (s1 =? "")%string eqn:E1; [discriminate|].
  destruct (s2 =? "")%string eqn:E2; [discriminate|].
  cbn [negb andb]. unfold Utils.isTrueFalse. rewrite !toLowerCase_idem.
  apply String.eqb_neq in E1, E2.
  rewrite !compareStrings_str by assumption.
  unfold JS.toLocaleLowerCase.
  intros H. apply orb_true_iff in H as [H | H];
    apply andb_true_iff in H as [H1 H2];
    apply String.eqb_eq in H1, H2; rewrite H1, H2; [left | right];
    split; reflexivity.
Qed.

Lemma nextQuestion_score (random : nat -> JS.draw) (calls : nat) (d : Trivia.data) :
  Trivia.score (fst (fst (Trivia.nextQuestion random calls d))) = Trivia.score d.
Proof.
  unfold Trivia.nextQuestion.
  destruct (Trivia.currentQuestion d =? Trivia.gameLength d - 1)%Z; [reflexivity|].
  destruct (JS.get (Trivia.sessionAnswers d) (Trivia.currentQuestion d + 1))
    as [[answers|]|]; try reflexivity.
  destruct (Trivia.presentAnswers random calls answers) as [[c [sel|]] calls'];
    reflexivity.
Qed.

(** A handler that names the position [k] of one of two answers, for a
    request without arguments: the answer counts when it is the one
    recorded as correct. *)
Lemma valueIntent_position (random : nat -> JS.draw) (req : Trivia.request)
    (k : Z) (calls : nat) (d : Trivia.data) (a b : option string) :
  bare req ->
  Trivia.selectedAnswers d = [a; b] ->
  (k = 1 \/ k = 2)%Z ->
  Trivia.score (fst (fst (Trivia.valueIntent random req false false (JS.num k) calls d))) =
  (Trivia.score d + if (Trivia.correctAnswer d + 1 =? k)%Z then 1 else 0)%Z.
Proof.
  intros (H1 & H2 & H3) Hsel Hk. unfold Trivia.valueIntent, Trivia.orElse.
  assert (Tk : JS.truthy (JS.num k) = true) by (destruct Hk; subst; reflexivity).
  rewrite Tk. cbn [negb JS.truthy]. rewrite H1. cbn [negb]. rewrite H2. cbn [negb].
  rewrite H3. cbn [negb andb]. rewrite H3. cbn [negb andb]. rewrite H3. cbn [negb].
  rewrite Hsel.
  assert (V : JS.truthy (Trivia.isValidAnswer (JS.num k) [a; b]) = true)
    by (destruct Hk; subst; reflexivity).
  rewrite V. cbn [JS.parseInt Trivia.optZ_eqb].
  rewrite nextQuestion_score.
  destruct (Trivia.correctAnswer d + 1 =? k)%Z; cbn; lia.
Qed.

(** X26.  On a true/false question, for requests without arguments,
    exactly one of [trueIntent] and [falseIntent] adds a point to the
    score, and the other leaves the score as it is. *)
Theorem trueIntent_falseIntent (random : nat -> JS.draw) (req : Trivia.request)
    (calls : nat) (d : Trivia.data) (a b : string) :
  bare req ->
  Trivia.selectedAnswers d = [Some a; Some b] ->
  Trivia.isTrueFalseQuestion (Some [a; b]) = true ->
  (0 <= Trivia.correctAnswer d < 2)%Z ->
  let scoreTrue := Trivia.score (fst (fst (Trivia.trueIntent random req calls d))) in
  let scoreFalse := Trivia.score (fst (fst (Trivia.falseIntent random req calls d))) in
  (scoreTrue = (Trivia.score d + 1)%Z /\ scoreFalse = Trivia.score d) \/
  (scoreTrue = Trivia.score d /\ scoreFalse = (Trivia.score d + 1)%Z).
Proof.
  intros Hreq Hsel Htf Hc. cbv zeta. unfold Trivia.trueIntent, Trivia.falseIntent.
  rewrite Hsel.
  destruct (labelled_trueFalse a b Htf) as [[-> ->] | [-> ->]];
    rewrite (valueIntent_position random req 1 calls d (Some a) (Some b) Hreq Hsel)
      by (now left);
    rewrite (valueIntent_position random req 2 calls d (Some a) (Some b) Hreq Hsel)
      by (now right);
    destruct (Z.eqb_spec (Trivia.correctAnswer d + 1) 1);
    destruct (Z.eqb_spec (Trivia.correctAnswer d + 1) 2); lia.
Qed.

Lemma trueIntent_falseIntent_witness :
  let scoreTrue :=
    Trivia.score (fst (fst (Trivia.trueIntent stuck (said "true") 0 trueFalseQuestion))) in
  let scoreFalse :=
    Trivia.score (fst (fst (Trivia.falseIntent stuck (said "true") 0 trueFalseQuestion))) in
  (scoreTrue = (Trivia.score trueFalseQuestion + 1)%Z /\
   scoreFalse = Trivia.score trueFalseQuestion) \/
  (scoreTrue = Trivia.score trueFalseQuestion /\
   scoreFalse = (Trivia.score trueFalseQuestion + 1)%Z).
Proof.
  apply (trueIntent_falseIntent stuck (said "true") 0 trueFalseQuestion "False" "True").
  - repeat split.
  - reflexivity.
  - reflexivity.
  - cbn. lia.
Defined.

(** ** persistScore *)



Lemma persistScores_kept (rounds : list Z) (s : Trivia.statistics) :
  (0 < Trivia.highestScore s)%Z ->
  Trivia.averageScore s =
    {| Trivia.dividend := Trivia.totalScore s; Trivia.divisor := Trivia.scores s |} ->
  persistScores rounds (Some s) =
  Some {| Trivia.highestScore := fold_left Z.max rounds (Trivia.highestScore s);
          Trivia.lowestScore := fold_left Z.min rounds (Trivia.lowestScore s);
          Trivia.averageScore :=
            {| Trivia.dividend := fold_left Z.add rounds (Trivia.totalScore s);
               Trivia.divisor := (Trivia.scores s + Z.of_nat (List.length rounds))%Z |};
          Trivia.totalScore := fold_left Z.add rounds (Trivia.totalScore s);
          Trivia.scores := (Trivia.scores s + Z.of_nat (List.length rounds))%Z |}.
Proof.
  unfold persistScores. revert s.
  induction rounds as [|x rounds IH]; intros s Hh Ha.
  - destruct s as [h l a t c]. cbn in *. subst a. now rewrite Z.add_0_r.
  - cbn [fold_left]. rewrite IH.
    + unfold Trivia.persistScore.
      destruct (Z.eqb_spec (Trivia.highestScore s) 0) as [E | _]; [lia|].
      cbn [negb Trivia.scores Trivia.averageScore Trivia.totalScore Trivia.lowestScore
           Trivia.highestScore List.length].
      replace (if (x >? Trivia.highestScore s)%Z then x else Trivia.highestScore s)
        with (Z.max (Trivia.highestScore s) x)
        by (destruct (Z.gtb_spec x (Trivia.highestScore s)); lia).
      replace (if (x <? Trivia.lowestScore s)%Z then x else Trivia.lowestScore s)
        with (Z.min (Trivia.lowestScore s) x)
        by (destruct (Z.ltb_spec x (Trivia.lowestScore s)); lia).
      replace (Trivia.scores s + 1 + Z.of_nat (List.length rounds))%Z
        with (Trivia.scores s + Z.of_nat (S (List.length rounds)))%Z by lia.
      reflexivity.
    + unfold Trivia.persistScore.
      destruct (Z.eqb_spec (Trivia.highestScore s) 0) as [E | _]; [lia|].
      cbn [negb Trivia.highestScore].
      destruct (Z.gtb_spec x (Trivia.highestScore s)); lia.
    + unfold Trivia.persistScore.
      destruct (Z.eqb_spec (Trivia.highestScore s) 0) as [E | _]; [lia|].
      reflexivity.
Qed.

(** X28.  For a user without statistics whose first round scores at least
    one point, the statistics after any number of rounds are the highest
    and the lowest of the scores, their sum, and the number of rounds. *)
Theorem persistScores_exact (first : Z) (rounds : list Z) :
  (0 < first)%Z ->
  persistScores (first :: rounds) None =
  Some {| Trivia.highestScore := fold_left Z.max rounds first;
          Trivia.lowestScore := fold_left Z.min rounds first;
          Trivia.averageScore :=
            {| Trivia.dividend := fold_left Z.add rounds first;
               Trivia.divisor := Z.of_nat (List.length (first :: rounds)) |};
          Trivia.totalScore := fold_left Z.add rounds first;
          Trivia.scores := Z.of_nat (List.length (first :: rounds)) |}.
Proof.
  intros H. change (persistScores (first :: rounds) None)
    with (persistScores rounds (Some (Trivia.persistScore first None))).
  rewrite persistScores_kept by (cbn; (lia || reflexivity)).
  cbn [Trivia.persistScore Trivia.scores Trivia.averageScore Trivia.totalScore
       Trivia.lowestScore Trivia.highestScore].
  replace (1 + Z.of_nat (List.length rounds))%Z
    with (Z.of_nat (List.length (first :: rounds))) by (cbn [List.length]; lia).
  reflexivity.
Qed.

Lemma persistScores_exact_witness :
  persistScores [2; 0; 4]%Z None =
  Some {| Trivia.highestScore := 4;
          Trivia.lowestScore := 0;
          Trivia.averageScore := {| Trivia.dividend := 6; Trivia.divisor := 3 |};
          Trivia.totalScore := 6;
          Trivia.scores := 3 |}.
Proof. apply (persistScores_exact 2 [0; 4]%Z). lia. Defined.

(** X29.  Rounds without a point are not counted: as long as the highest
    score of a user is 0, every round starts the statistics again, and the
    number of rounds stays 1. *)
Theorem persistScores_zero (k : nat) (stored : option Trivia.statistics) :
  (forall s, stored = Some s -> Trivia.highestScore s = 0%Z) ->
  persistScores (repeat 0%Z (S k)) stored =
  Some {| Trivia.highestScore := 0;
          Trivia.lowestScore := 0;
          Trivia.averageScore := {| Trivia.dividend := 0; Trivia.divisor := 1 |};
          Trivia.totalScore := 0;
          Trivia.scores := 1 |}.
Proof.
  unfold persistScores. revert stored.
  induction k as [|k IH]; intros stored H.
  - cbn [repeat fold_left]. f_equal. unfold Trivia.persistScore.
    destruct stored as [s|]; [|reflexivity]. now rewrite (H s eq_refl).
  - change (repeat 0%Z (S (S k))) with (0%Z :: repeat 0%Z (S k)).
    cbn [fold_left]. apply IH. intros s E. injection E as <-.
    unfold Trivia.persistScore.
    destruct stored as [s|]; [|reflexivity]. now rewrite (H s eq_refl).
Qed.

Lemma persistScores_zero_witness :
  persistScores (repeat 0%Z (S 2)) None =
  Some {| Trivia.highestScore := 0;
          Trivia.lowestScore := 0;
          Trivia.averageScore := {| Trivia.dividend := 0; Trivia.divisor := 1 |};
          Trivia.totalScore := 0;
          Trivia.scores := 1 |}.
Proof. apply (persistScores_zero 2 None). intros s E. discriminate. Defined.

(** X30.  [startNewRound] comes to an end, with an error or with the
    session data of a round, when the random numbers keep showing every
    index of the corpus. *)
Theorem startNewRound_terminates (random : nat -> JS.draw) (fuel window calls gameLength : nat)
    (previousQuestions : list Z) (correct : option bool) (db : option Trivia.database) :
  (forall db' questions,
     db = Some db' -> Trivia.questions db' = Some questions ->
     fair random (List.length questions) window) ->
  window < fuel ->
  exists result gameLength' history calls',
    Trivia.startNewRound random fuel calls gameLength previousQuestions correct db =
    Trivia.Done (result, gameLength', history, calls').
Proof.
  intros Hfair Hfuel. unfold Trivia.startNewRound.
  destruct db as [db|]; [|repeat eexists].
  destruct (Trivia.questions db) as [questions|] eqn:Q; [|repeat eexists].
  assert (Hrun : exists s,
            Trivia.selectQuestions random fuel calls gameLength previousQuestions
              (Some questions) = Trivia.Done s).
  { destruct questions as [|q questions].
    - rewrite selectQuestions_empty_corpus. eauto.
    - destruct (selectQuestions_terminates random calls gameLength previousQuestions
                  (q :: questions) ltac:(discriminate) fuel window
                  (Hfair db (q :: questions) eq_refl Q) Hfuel) as (s & Hs & _).
      eauto. }
  destruct Hrun as (s & ->).
  destruct (Trivia.selected s) as [selectedQuestions|]; [|repeat eexists].
  destruct (Trivia.answers db) as [answers|]; [|repeat eexists].
  destruct (Trivia.at_ answers
              match selectedQuestions with
              | [] => None
              | i :: _ => i
              end) as [entry|]; [|repeat eexists].
  destruct (Trivia.presentAnswers random (Trivia.newCalls s) entry)
    as [[correctIndex [selectedAnswers|]] calls0]; repeat eexists.
Qed.

Lemma startNewRound_terminates_witness :
  exists result gameLength' history calls',
    Trivia.startNewRound (roundRobin 2) 3 0 4 [] None (Some twoQuestionGame) =
    Trivia.Done (result, gameLength', history, calls').
Proof.
  apply (startNewRound_terminates (roundRobin 2) 3 2 0 4 [] None (Some twoQuestionGame)).
  - intros db' questions E Q. injection E as <-. injection Q as <-.
    apply (roundRobin_fair 2). lia.
  - lia.
Defined.
